(** * The message-log OCR pipeline (tools/ocr/process_messages_ocr.py)

    A shallow embedding of the script: the retry loop around the vision
    call ([process_page_vision]), the per-document driver ([process_pdf])
    and the command-line entry point ([main] and the module's top level).

    The script is sequential Python that prints, sleeps, calls two
    libraries and writes one file.  It is embedded with explicit state
    passing over a [world]: the file system (a finite map from paths to
    contents) and the chronological trace of observable events.

    The two text functions of the research-page generator
    (scripts/build-research-pages.py), [slugify] and [extract_title],
    follow the pipeline. *)

From Stdlib Require Import Ascii QArith Lqa.
From stdpp Require Import base gmap strings pretty list.

Local Open Scope string_scope.
Local Open Scope list_scope.
Local Open Scope stdpp_scope.

(** ** Python values *)

(** A page image (a PIL image): the script never inspects it, it only
    hands it to the model. *)
Inductive image := Image (payload : N).

(** A caught exception.  The script only ever formats it, so it is its
    class together with [str(e)]. *)
Record exception := { exc_class : string; exc_str : string }.

(** A call either returns a value or raises. *)
Inductive outcome (A : Type) :=
| Returns (a : A)
| Raises (e : exception).
Arguments Returns {A} a.
Arguments Raises {A} e.

(** [response.prompt_feedback.block_reason]: an enum member, falsy when
    its value is 0 (unspecified), printed through its own rendering. *)
Record block_reason_t := { reason_value : N; reason_str : string }.

Record prompt_feedback_t := { block_reason : block_reason_t }.

(** The model's response as the script reads it: [prompt_feedback]
    ([None] when it is falsy) and the property [text].  Reading
    [response.text] returns the text or raises: the client raises there
    for a response that carries no text, as after a blocked prompt. *)
Record response := { prompt_feedback : option prompt_feedback_t; text : outcome string }.

(** Truthiness of [response.prompt_feedback and
    response.prompt_feedback.block_reason]. *)
Definition blocked (r : response) : option block_reason_t :=
  match prompt_feedback r with
  | Some fb => if (reason_value (block_reason fb) =? 0)%N then None else Some (block_reason fb)
  | None => None
  end.

(** ** The libraries the script calls

    [pathlib], [pdf2image] and the generative-model client are not part
    of the repository; they are parameters of the embedding.  The model
    call may answer differently every time: its answer depends on the
    number of calls made before it. *)
Record library := {
  path_name : string -> string;
  path_stem : string -> string;
  convert_from_path : string -> nat -> outcome (list image);
  generate_content : nat -> image -> outcome response;
}.

(** ** The world *)

(** What the script does that can be observed, each library call with
    what it gave back. *)
Inductive event :=
| Print (line : string)
| Sleep (seconds : Q)
| ConvertFromPath (path : string) (dpi : nat) (result : outcome (list image))
| GenerateContent (img : image) (result : outcome response).

Record world := { files : gmap string string; trace : list event }.

Definition emit (e : event) (w : world) : world :=
  {| files := files w; trace := trace w ++ [e] |}.

Definition print (line : string) : world -> world := emit (Print line).

(** [time.sleep(d)] for an integer number of seconds. *)
Definition sleep (d : nat) : world -> world := emit (Sleep (inject_Z (Z.of_nat d))).

(** Number of model calls recorded in a trace. *)
Fixpoint model_calls (tr : list event) : nat :=
  match tr with
  | [] => 0
  | GenerateContent _ _ :: tr' => S (model_calls tr')
  | _ :: tr' => model_calls tr'
  end.

(** The sleeps recorded in a trace, in order. *)
Fixpoint sleeps (tr : list event) : list Q :=
  match tr with
  | [] => []
  | Sleep d :: tr' => d :: sleeps tr'
  | _ :: tr' => sleeps tr'
  end.

(** The images handed to the model in a trace, in order. *)
Fixpoint called_images (tr : list event) : list image :=
  match tr with
  | [] => []
  | GenerateContent img _ :: tr' => img :: called_images tr'
  | _ :: tr' => called_images tr'
  end.

(** [model.generate_content([prompt, image], safety_settings=...)]: the
    prompt, the model name and the safety settings are constants of the
    script, the same at every call. *)
Definition call_model (lib : library) (img : image) (w : world) : outcome response * world :=
  let r := generate_content lib (model_calls (trace w)) img in
  (r, emit (GenerateContent img r) w).

(** [Path.exists()] *)
Definition path_exists (p : string) (w : world) : bool :=
  bool_decide (is_Some (files w !! p)).

(** [with open(p, "w") as f: f.write(s)] *)
Definition write_file (p s : string) (w : world) : world :=
  {| files := <[p := s]> (files w); trace := trace w |}.

(** [with open(p, "a") as f: f.write(s)]: the file is created when it is
    not there. *)
Definition append_file (p s : string) (w : world) : world :=
  {| files := <[p := default "" (files w !! p) +:+ s]> (files w); trace := trace w |}.

(** ** Strings *)

Definition nl : string := String "010"%char "".

(** [needle in hay] on Python strings. *)
Fixpoint contains (needle hay : string) : bool :=
  String.prefix needle hay ||
  match hay with
  | "" => false
  | String _ hay' => contains needle hay'
  end.

(** ** process_page_vision *)

Definition max_retries : nat := 3.
Definition base_delay : nat := 5.

(** The test of the [except] branch on [str(e)]. *)
Definition rate_limit_hit (e : exception) : bool :=
  contains "429" (exc_str e) || contains "Resource exhausted" (exc_str e).

(** The line the [except] branch prints first. *)
Definition attempt_warning (page_num attempt : nat) (e : exception) : string :=
  "  [WARN] Error processing page " +:+ pretty page_num +:+ " (Attempt "
  +:+ pretty (attempt + 1) +:+ "/" +:+ pretty max_retries +:+ "): " +:+ exc_str e.

Definition rate_limit_notice : string := "   [INFO] Rate limit hit. Waiting 30s...".

(** The body of [except Exception as e] up to the choice of [delay]. *)
Definition on_error (page_num attempt : nat) (e : exception) (w : world) : nat * world :=
  let w := print (attempt_warning page_num attempt e) w in
  let delay := base_delay * (attempt + 1) in
  if rate_limit_hit e
  then (30, print rate_limit_notice w)
  else (delay, w).

(** The line printed for a blocked prompt. *)
Definition blocked_warning (page_num : nat) (reason : block_reason_t) : string :=
  "  [WARN] Page " +:+ pretty page_num +:+ " blocked: " +:+ reason_str reason.

Definition fallback_marker (page_num : nat) (e : exception) : string :=
  "<!-- Error processing page " +:+ pretty page_num +:+ ": " +:+ exc_str e +:+ " -->".

(** The body of the [try]: the model call, the warning for a blocked
    prompt and the reading of [response.text].  It gives the text it
    returns, or the exception that leaves it, from the call or from the
    reading. *)
Definition try_page (lib : library) (img : image) (page_num : nat) (w : world)
  : outcome string * world :=
  let '(r, w) := call_model lib img w in
  match r with
  | Returns resp =>
    let w := match blocked resp with
             | Some reason => print (blocked_warning page_num reason) w
             | None => w
             end in
    (text resp, w)
  | Raises e => (Raises e, w)
  end.

(** [for attempt in range(max_retries): ...] over the attempts still to
    run.  The value is what the function returns: [None] is Python's
    [None], returned when the loop runs out without a [return]. *)
Fixpoint attempts (lib : library) (img : image) (page_num : nat) (rng : list nat) (w : world)
  : option string * world :=
  match rng with
  | [] => (None, w)
  | attempt :: rng' =>
    let '(r, w) := try_page lib img page_num w in
    match r with
    | Returns page_text => (Some page_text, w)
    | Raises e =>
      let '(delay, w) := on_error page_num attempt e w in
      if (attempt <? max_retries - 1)%nat
      then attempts lib img page_num rng' (sleep delay w)
      else (Some (fallback_marker page_num e), w)
    end
  end.

(** Building the model object, the prompt and the safety settings has
    no effect of its own; the function is its retry loop. *)
Definition process_page_vision (lib : library) (img : image) (page_num : nat) (w : world)
  : option string * world :=
  attempts lib img page_num (seq 0 max_retries) w.

(** ** process_pdf *)

(** How a function of the script ends: it returns, an exception leaves
    it, or [sys.exit(status)] does. *)
Inductive completion :=
| Returned
| Raised (e : exception)
| Exited (status : Z).

(** [page_text + "\n"] when [page_text] is [None]. *)
Definition none_plus_str : exception :=
  {| exc_class := "TypeError";
     exc_str := "unsupported operand type(s) for +: 'NoneType' and 'str'" |}.

(** [for i, image in enumerate(tqdm(images, ...)): ...] from index [i]
    on ([tqdm] only draws a progress bar on stderr). *)
Fixpoint pages (lib : library) (output_path : string) (i : nat) (images : list image) (w : world)
  : completion * world :=
  match images with
  | [] => (Returned, w)
  | img :: images' =>
    let page_num := i + 1 in
    let '(page_text, w) := process_page_vision lib img page_num w in
    let w := append_file output_path (nl +:+ "<!-- Page " +:+ pretty page_num +:+ " -->" +:+ nl) w in
    match page_text with
    | None => (Raised none_plus_str, w)
    | Some page_text =>
      let w := append_file output_path (page_text +:+ nl) w in
      let w := emit (Sleep (1 # 2)) w in
      pages lib output_path (i + 1) images' w
    end
  end.

Definition process_pdf (lib : library) (pdf_path output_file_path : string) (w : world)
  : completion * world :=
  let pdf_name := path_stem lib pdf_path in
  let output_path := output_file_path in
  if path_exists output_path w
  then (Returned, print ("[SKIP] " +:+ pdf_name +:+ " (already exists)") w)
  else
    let w := print ("[PDF] Processing: " +:+ pdf_name) w in
    let r := convert_from_path lib pdf_path 200 in
    let w := emit (ConvertFromPath pdf_path 200 r) w in
    match r with
    | Raises e => (Returned, print ("[ERROR] Converting PDF to images: " +:+ exc_str e) w)
    | Returns images =>
      let w := write_file output_path ("<!-- Source: " +:+ pdf_name +:+ " -->" +:+ nl +:+ nl) w in
      pages lib output_path 0 images w
    end.

(** ** main and the module's top level *)

(** The process the script runs in: its environment variables (after
    [load_dotenv]) and the two arguments [argparse] hands over. *)
Record process := {
  environ : gmap string string;
  args_file : string;
  args_output : string;
}.

(** [x or y] on two results of [os.getenv]. *)
Definition py_or (x y : option string) : option string :=
  match x with
  | Some (String _ _) => x
  | _ => y
  end.

(** [not x] on a result of [os.getenv]. *)
Definition py_not (x : option string) : bool :=
  match x with
  | Some (String _ _) => false
  | _ => true
  end.

Definition main (lib : library) (ps : process) (w : world) : completion * world :=
  let input_path := args_file ps in
  let output_path := args_output ps in
  if negb (path_exists input_path w)
  then (Exited 1, print ("[ERROR] Input file not found: " +:+ input_path) w)
  else
    let w := print ("[INFO] Processing " +:+ path_name lib input_path +:+ " -> "
                    +:+ path_name lib output_path) w in
    process_pdf lib input_path output_path w.

(** Running the file as a script: the exit status and the world it
    leaves.  An exception nobody catches ends the interpreter with
    status 1. *)
Definition script (lib : library) (ps : process) (w : world) : Z * world :=
  let API_KEY := py_or (environ ps !! "GEMINI_API_KEY") (environ ps !! "GOOGLE_API_KEY") in
  if py_not API_KEY
  then (1%Z, print "[ERROR] GEMINI_API_KEY or GOOGLE_API_KEY not found in environment." w)
  else
    match main lib ps w with
    | (Returned, w) => (0%Z, w)
    | (Raised _, w) => (1%Z, w)
    | (Exited status, w) => (status, w)
    end.

(** ** When the output cannot be opened

    [open(output_path, ...)] stands outside every [try]: when it raises
    (a missing directory, a path that cannot be written) the exception
    leaves [process_pdf] and ends the script.  The functions above are
    the script on a file system that opens the output every time it is
    asked to.  The ones below take the answers of [open] as a
    parameter: [os n p] is the error of the [n]-th opening of [p] for
    writing in a run (the header is opening 0, page [k] is opening
    [k]), and [None] when the file opens. *)
Definition openings := nat -> string -> option exception.

Fixpoint pages_on (os : openings) (lib : library) (output_path : string) (i : nat)
    (images : list image) (w : world) : completion * world :=
  match images with
  | [] => (Returned, w)
  | img :: images' =>
    let page_num := i + 1 in
    let '(page_text, w) := process_page_vision lib img page_num w in
    match os page_num output_path with
    | Some e => (Raised e, w)
    | None =>
      let w := append_file output_path (nl +:+ "<!-- Page " +:+ pretty page_num +:+ " -->" +:+ nl) w in
      match page_text with
      | None => (Raised none_plus_str, w)
      | Some page_text =>
        let w := append_file output_path (page_text +:+ nl) w in
        let w := emit (Sleep (1 # 2)) w in
        pages_on os lib output_path (i + 1) images' w
      end
    end
  end.

Definition process_pdf_on (os : openings) (lib : library) (pdf_path output_file_path : string)
    (w : world) : completion * world :=
  let pdf_name := path_stem lib pdf_path in
  let output_path := output_file_path in
  if path_exists output_path w
  then (Returned, print ("[SKIP] " +:+ pdf_name +:+ " (already exists)") w)
  else
    let w := print ("[PDF] Processing: " +:+ pdf_name) w in
    let r := convert_from_path lib pdf_path 200 in
    let w := emit (ConvertFromPath pdf_path 200 r) w in
    match r with
    | Raises e => (Returned, print ("[ERROR] Converting PDF to images: " +:+ exc_str e) w)
    | Returns images =>
      match os 0 output_path with
      | Some e => (Raised e, w)
      | None =>
        let w := write_file output_path ("<!-- Source: " +:+ pdf_name +:+ " -->" +:+ nl +:+ nl) w in
        pages_on os lib output_path 0 images w
      end
    end.

Definition main_on (os : openings) (lib : library) (ps : process) (w : world)
  : completion * world :=
  let input_path := args_file ps in
  let output_path := args_output ps in
  if negb (path_exists input_path w)
  then (Exited 1, print ("[ERROR] Input file not found: " +:+ input_path) w)
  else
    let w := print ("[INFO] Processing " +:+ path_name lib input_path +:+ " -> "
                    +:+ path_name lib output_path) w in
    process_pdf_on os lib input_path output_path w.

Definition script_on (os : openings) (lib : library) (ps : process) (w : world) : Z * world :=
  let API_KEY := py_or (environ ps !! "GEMINI_API_KEY") (environ ps !! "GOOGLE_API_KEY") in
  if py_not API_KEY
  then (1%Z, print "[ERROR] GEMINI_API_KEY or GOOGLE_API_KEY not found in environment." w)
  else
    match main_on os lib ps w with
    | (Returned, w) => (0%Z, w)
    | (Raised _, w) => (1%Z, w)
    | (Exited status, w) => (status, w)
    end.

(** ** A sample run

    A two-page scan whose first model call fails twice with a generic
    error before it succeeds. *)
Module Sample.

Definition generic : exception := {| exc_class := "RuntimeError"; exc_str := "500 Internal error" |}.
Definition quota : exception := {| exc_class := "ResourceExhausted"; exc_str := "429 Resource exhausted" |}.
Definition corrupt : exception := {| exc_class := "PDFPageCountError"; exc_str := "Unable to get page count." |}.

Definition ok (t : string) : response := {| prompt_feedback := None; text := Returns t |}.
Definition safety : block_reason_t := {| reason_value := 1; reason_str := "BlockReason.SAFETY" |}.
Definition no_text : exception :=
  {| exc_class := "ValueError";
     exc_str := "The response.text quick accessor requires a valid Part, but none were returned." |}.

(** A blocked prompt as the client reports it: a block reason, and no
    text to read. *)
Definition refused : response :=
  {| prompt_feedback := Some {| block_reason := safety |}; text := Raises no_text |}.

(** A response that reports a block reason and still has a text. *)
Definition flagged (t : string) : response :=
  {| prompt_feedback := Some {| block_reason := safety |}; text := Returns t |}.

Definition lib : library := {|
  path_name := fun p => p;
  path_stem := fun p => "scan";
  convert_from_path := fun p dpi => Returns [Image 1; Image 2];
  generate_content := fun k img =>
    match k with
    | 0 | 1 => Raises generic
    | 2 => Returns (ok "<div>hello</div>")
    | _ => Returns (ok "<div>bye</div>")
    end;
|}.

(** The same library with another model behind it. *)
Definition with_model (f : nat -> image -> outcome response) : library :=
  {| path_name := path_name lib; path_stem := path_stem lib;
     convert_from_path := convert_from_path lib; generate_content := f |}.

(** The same library over a document that does not decode. *)
Definition undecodable : library :=
  {| path_name := path_name lib; path_stem := path_stem lib;
     convert_from_path := fun p dpi => Raises corrupt;
     generate_content := generate_content lib |}.

Definition no_directory : exception :=
  {| exc_class := "FileNotFoundError";
     exc_str := "[Errno 2] No such file or directory: 'out/scan.md'" |}.

Definition w0 : world := {| files := {[ "scan.pdf" := "%PDF" ]}; trace := [] |}.

Definition ps : process :=
  {| environ := {[ "GEMINI_API_KEY" := "k" ]}; args_file := "scan.pdf"; args_output := "scan.md" |}.

End Sample.

(** * The vocabulary of the properties

    Shorthands for worlds and events, and the notions the specification
    uses: substrings, the rate-limit signal, the layout of the artifact,
    fatal errors, and the page images a run holds. *)

(** Appending a whole list of events at once. *)
Definition emit_all (evs : list event) (w : world) : world :=
  {| files := files w; trace := trace w ++ evs |}.

(** What the specification calls "the description contains ...". *)
Definition has_substring (needle hay : string) : Prop :=
  exists before after, hay = before +:+ needle +:+ after.

(** The signal the specification speaks of, in its words: the error's
    description contains "429" or "Resource exhausted". *)
Definition rate_limit_signal (description : string) : Prop :=
  has_substring "429" description \/ has_substring "Resource exhausted" description.

(** The events of the [except] branch before any sleep. *)
Definition error_events (page_num attempt : nat) (e : exception) : list event :=
  Print (attempt_warning page_num attempt e)
  :: (if rate_limit_hit e then [Print rate_limit_notice] else []).

Definition chosen_delay (attempt : nat) (e : exception) : nat :=
  if rate_limit_hit e then 30 else base_delay * (attempt + 1).

(** The world a failed attempt that is retried leaves behind. *)
Definition retried (img : image) (page_num attempt : nat) (e : exception) (w : world) : world :=
  sleep (chosen_delay attempt e)
        (emit_all (GenerateContent img (Raises e) :: error_events page_num attempt e) w).

(** An event of the page loop: anything but a call of the page source. *)
Definition page_event (ev : event) : Prop :=
  match ev with
  | ConvertFromPath _ _ _ => False
  | _ => True
  end.

(** The [k]-th model call, made on [img], makes an attempt fail with
    [e]: the call raises [e], or it returns a response whose text
    cannot be read, the reading raising [e]. *)
Definition fails_with (lib : library) (k : nat) (img : image) (e : exception) : Prop :=
  generate_content lib k img = Raises e
  \/ exists resp, generate_content lib k img = Returns resp /\ text resp = Raises e.

(** What a page's result can be: the text read from a response the
    model gave for that image, or the fallback comment for that page
    number around the description of an error that made an attempt on
    that image fail. *)
Definition page_result (lib : library) (img : image) (page_num : nat) (r : string) : Prop :=
  (exists k resp, generate_content lib k img = Returns resp /\ text resp = Returns r)
  \/ (exists k e, fails_with lib k img e
                  /\ r = "<!-- Error processing page " +:+ pretty page_num +:+ ": "
                         +:+ exc_str e +:+ " -->").

(** The warning of the [try] body for a response, as events. *)
Definition blocked_events (page_num : nat) (resp : response) : list event :=
  match blocked resp with
  | Some reason => [Print (blocked_warning page_num reason)]
  | None => []
  end.

(** What the [try] body gives in world [w], and the events it emits. *)
Definition try_result (lib : library) (img : image) (w : world) : outcome string :=
  match generate_content lib (model_calls (trace w)) img with
  | Returns resp => text resp
  | Raises e => Raises e
  end.

Definition try_events (lib : library) (img : image) (page_num : nat) (w : world) : list event :=
  match generate_content lib (model_calls (trace w)) img with
  | Returns resp => GenerateContent img (Returns resp) :: blocked_events page_num resp
  | Raises e => [GenerateContent img (Raises e)]
  end.

(** The world a failed attempt that is retried leaves behind, [evs]
    being the events of its [try] body. *)
Definition failed (evs : list event) (page_num attempt : nat) (e : exception) (w : world) : world :=
  sleep (chosen_delay attempt e) (emit_all (evs ++ error_events page_num attempt e) w).

(** An event of the work on one page: the model calls are on its image. *)
Definition page_event_of (img : image) (ev : event) : Prop :=
  match ev with
  | ConvertFromPath _ _ _ => False
  | GenerateContent i _ => i = img
  | _ => True
  end.

(** The layout of the output artifact in the specification's words: for
    each page, counted from [index], a marker line immediately followed
    by that page's result. *)
Fixpoint page_blocks (index : nat) (results : list string) : string :=
  match results with
  | [] => ""
  | r :: results' =>
    nl +:+ "<!-- Page " +:+ pretty index +:+ " -->" +:+ nl
    +:+ r +:+ nl +:+ page_blocks (index + 1) results'
  end.

(** The header line, a blank line, then the pages from 1 on. *)
Definition artifact (document_name : string) (results : list string) : string :=
  "<!-- Source: " +:+ document_name +:+ " -->" +:+ nl +:+ nl +:+ page_blocks 1 results.

(** [results] are results of [images], page by page from [index] on. *)
Fixpoint results_of (lib : library) (index : nat) (images : list image) (results : list string)
  : Prop :=
  match images, results with
  | [], [] => True
  | img :: images', r :: results' =>
    page_result lib img index r /\ results_of lib (index + 1) images' results'
  | _, _ => False
  end.

(** The model is called on the pages one at a time and in order: one to
    [max_retries] calls in a row on each image. *)
Definition one_by_one (images called : list image) : Prop :=
  exists attempts_made : list nat,
    length attempts_made = length images
    /\ Forall (fun k => 1 <= k <= max_retries) attempts_made
    /\ called = concat (zip_with (fun img k => replicate k img) images attempts_made).

Definition skip_line (lib : library) (pdf_path : string) : string :=
  "[SKIP] " +:+ path_stem lib pdf_path +:+ " (already exists)".

Definition processing_line (lib : library) (pdf_path : string) : string :=
  "[PDF] Processing: " +:+ path_stem lib pdf_path.

(** The credential the module's top level ends up with. *)
Definition api_key (ps : process) : option string :=
  py_or (environ ps !! "GEMINI_API_KEY") (environ ps !! "GOOGLE_API_KEY").

(** The three errors the specification calls fatal, as a run meets
    them: no credential at startup, no input file, and a document the
    page source cannot decode. *)
Inductive fatal_error (lib : library) (ps : process) (w : world) : Prop :=
| Missing_credential :
    py_not (api_key ps) = true -> fatal_error lib ps w
| Missing_input :
    py_not (api_key ps) = false ->
    path_exists (args_file ps) w = false -> fatal_error lib ps w
| Undecodable_document (e : exception) :
    py_not (api_key ps) = false ->
    path_exists (args_file ps) w = true ->
    path_exists (args_output ps) w = false ->
    convert_from_path lib (args_file ps) 200 = Raises e -> fatal_error lib ps w.

(** [process_pdf] binds what the page source returns to [images] and
    keeps that list until it returns.  [held_at_calls held tr] lists, for
    each model call of the trace [tr] in order, how many page images the
    run holds when the call is made, starting from [held]. *)
Fixpoint held_at_calls (held : nat) (tr : list event) : list nat :=
  match tr with
  | [] => []
  | ConvertFromPath _ _ (Returns images) :: tr' => held_at_calls (held + length images) tr'
  | GenerateContent _ _ :: tr' => held :: held_at_calls held tr'
  | _ :: tr' => held_at_calls held tr'
  end.

(** Pages produced and consumed one at a time: no model call is made
    with more than one page image held. *)
Definition one_page_at_a_time (tr : list event) : Prop :=
  Forall (fun held => held <= 1) (held_at_calls 0 tr).

(** [d] whole seconds, as [time.sleep] takes them. *)
Definition secs (d : nat) : Q := inject_Z (Z.of_nat d).

(** The time a list of sleeps takes in all. *)
Definition total_sleep (qs : list Q) : Q := fold_right Qplus 0%Q qs.

(** The backoff sleeps one page can go through: none, one after the
    first attempt (5 or 30 seconds), or that one and one after the
    second attempt (10 or 30 seconds). *)
Definition retry_waits (ds : list nat) : Prop :=
  ds = []
  \/ (exists d0, ds = [d0] /\ (d0 = 5 \/ d0 = 30))
  \/ (exists d0 d1, ds = [d0; d1] /\ (d0 = 5 \/ d0 = 30) /\ (d1 = 10 \/ d1 = 30)).

(** The sleeps of a run, page by page: each page's backoff sleeps, then
    the pacing sleep of half a second. *)
Definition paced (waits : list (list nat)) : list Q :=
  concat (map (fun ds => map secs ds ++ [1 # 2]%Q) waits).

(** A variable [os.getenv] finds unset, or set to the empty string. *)
Definition unset (ps : process) (name : string) : Prop :=
  environ ps !! name = None \/ environ ps !! name = Some "".

(** What the interpreter's exit makes of how [main] ended. *)
Definition exit_status (c : completion) : Z :=
  match c with
  | Returned => 0%Z
  | Raised _ => 1%Z
  | Exited status => status
  end.

(** * The research-page generator (scripts/build-research-pages.py)

    Python strings are embedded as strings of ASCII characters: on text
    outside ASCII [str.lower], [str.strip] and [str.splitlines] know
    more characters than the embedding does, so the properties below
    are stated for ASCII text. *)

Definition in_range (lo hi : nat) (c : ascii) : bool :=
  (lo <=? nat_of_ascii c)%nat && (nat_of_ascii c <=? hi)%nat.

(** [str.isspace] on one ASCII character: tab to carriage return, the
    four separators 0x1c to 0x1f, and the space. *)
Definition is_whitespace (c : ascii) : bool := in_range 9 13 c || in_range 28 32 c.

Definition is_hyphen (c : ascii) : bool := (c =? "-")%char.

(** One character of [str.lower]. *)
Definition to_lower (c : ascii) : ascii :=
  if in_range 65 90 c then ascii_of_nat (nat_of_ascii c + 32) else c.

(** One character of [str.replace('_', '-')]. *)
Definition underscore_to_hyphen (c : ascii) : ascii :=
  if (c =? "_")%char then "-"%char else c.

Fixpoint map_chars (f : ascii -> ascii) (s : string) : string :=
  match s with
  | "" => ""
  | String c s' => String (f c) (map_chars f s')
  end.

Fixpoint all_chars (p : ascii -> bool) (s : string) : bool :=
  match s with
  | "" => true
  | String c s' => p c && all_chars p s'
  end.

Definition ascii_only (s : string) : Prop :=
  all_chars (fun c => (nat_of_ascii c <? 128)%nat) s = true.

(** [str.lstrip] and [str.rstrip] for a set of characters, and
    [str.strip]. *)
Fixpoint lstrip (drop : ascii -> bool) (s : string) : string :=
  match s with
  | "" => ""
  | String c s' => if drop c then lstrip drop s' else s
  end.

Fixpoint rstrip (drop : ascii -> bool) (s : string) : string :=
  match s with
  | "" => ""
  | String c s' =>
    match rstrip drop s' with
    | "" => if drop c then "" else String c ""
    | kept => String c kept
    end
  end.

Definition strip (drop : ascii -> bool) (s : string) : string :=
  rstrip drop (lstrip drop s).

(** The class [[a-z0-9\\-]] of the first pattern of [slugify]: lower-case
    letters, digits, the backslash and the hyphen. *)
Definition slug_char (c : ascii) : bool :=
  in_range 97 122 c || in_range 48 57 c || (c =? "\")%char || (c =? "-")%char.

(** [re.sub(r'[^...]+', '-', s)] for a class given by [keep]: every
    maximal run of characters outside the class becomes one hyphen (the
    hyphen is put where the run ends). *)
Fixpoint sub_runs (keep : ascii -> bool) (s : string) : string :=
  match s with
  | "" => ""
  | String c s' =>
    if keep c then String c (sub_runs keep s')
    else match s' with
         | "" => "-"
         | String c' _ => if keep c' then String "-" (sub_runs keep s') else sub_runs keep s'
         end
  end.

(** [re.sub(r'-{2,}', '-', s)]: every run of two hyphens or more becomes
    one hyphen (all hyphens of the run but its last are dropped). *)
Fixpoint squeeze_hyphens (s : string) : string :=
  match s with
  | "" => ""
  | String c s' =>
    match s' with
    | String c' _ => if is_hyphen c && is_hyphen c' then squeeze_hyphens s'
                     else String c (squeeze_hyphens s')
    | "" => String c ""
    end
  end.

Definition slugify (value : string) : string :=
  let value := map_chars underscore_to_hyphen (map_chars to_lower (strip is_whitespace value)) in
  let value := sub_runs slug_char value in
  let value := squeeze_hyphens value in
  match strip is_hyphen value with
  | "" => "page"
  | value => value
  end.

(** A character [slugify] can keep something of: a letter, a digit or a
    backslash. *)
Definition is_word_char (c : ascii) : bool :=
  in_range 97 122 c || in_range 65 90 c || in_range 48 57 c || (c =? "\")%char.

(** The string does not begin with a character of [drop]. *)
Definition first_kept (drop : ascii -> bool) (s : string) : Prop :=
  match s with
  | "" => True
  | String c _ => drop c = false
  end.

(** The string does not end with a character of [drop]. *)
Fixpoint last_kept (drop : ascii -> bool) (s : string) : Prop :=
  match s with
  | "" => True
  | String c s' =>
    match s' with
    | "" => drop c = false
    | String _ _ => last_kept drop s'
    end
  end.

(** No two hyphens in a row. *)
Fixpoint no_double_hyphen (s : string) : Prop :=
  match s with
  | "" => True
  | String c s' =>
    match s' with
    | "" => True
    | String c' _ => is_hyphen c && is_hyphen c' = false
    end /\ no_double_hyphen s'
  end.

(** A slug as [slugify] makes them: not empty, of lower-case letters,
    digits, backslashes and hyphens only, with no hyphen at either end
    and no two hyphens in a row. *)
Definition well_formed_slug (s : string) : Prop :=
  s <> ""
  /\ all_chars slug_char s = true
  /\ (forall t, s <> "-" +:+ t)
  /\ (forall t, s <> t +:+ "-")
  /\ ~ has_substring "--" s.

(** A line boundary of [str.splitlines] among the ASCII characters: line
    feed, vertical tab, form feed, carriage return and the separators
    0x1c to 0x1e. *)
Definition is_line_break (c : ascii) : bool := in_range 10 13 c || in_range 28 30 c.

Definition carriage_return : ascii := "013"%char.
Definition line_feed : ascii := "010"%char.

(** The pieces between the line boundaries of [s], the last one included
    even when it is empty.  [after_cr] says that the character before
    [s] was a carriage return, whose line feed is part of the same
    boundary. *)
Fixpoint split_breaks (after_cr : bool) (s : string) : list string :=
  match s with
  | "" => [""]
  | String c s' =>
    if after_cr && (c =? line_feed)%char then split_breaks false s'
    else if is_line_break c then "" :: split_breaks (c =? carriage_return)%char s'
    else match split_breaks false s' with
         | [] => [String c ""]
         | line :: rest => String c line :: rest
         end
  end.

Fixpoint drop_last_empty (pieces : list string) : list string :=
  match pieces with
  | [] => []
  | piece :: rest =>
    match rest with
    | [] => if (piece =? "")%string then [] else [piece]
    | _ :: _ => piece :: drop_last_empty rest
    end
  end.

(** [str.splitlines()]: a boundary at the very end opens no further
    line. *)
Definition splitlines (s : string) : list string := drop_last_empty (split_breaks false s).

(** [s[n:]] *)
Fixpoint drop_chars (n : nat) (s : string) : string :=
  match n, s with
  | S n', String _ s' => drop_chars n' s'
  | _, _ => s
  end.

(** The loop of [extract_title] over the lines. *)
Fixpoint first_title (lines : list string) (fallback : string) : string :=
  match lines with
  | [] => fallback
  | line :: rest =>
    if String.prefix "# " line then strip is_whitespace (drop_chars 2 line)
    else first_title rest fallback
  end.

Definition extract_title (markdown fallback : string) : string :=
  first_title (splitlines markdown) fallback.

(** [sep.join(lines)] *)
Fixpoint join (sep : string) (lines : list string) : string :=
  match lines with
  | [] => ""
  | line :: rest =>
    match rest with
    | [] => line
    | _ :: _ => line +:+ sep +:+ join sep rest
    end
  end.

(** A string with no line boundary in it. *)
Definition one_line (s : string) : Prop :=
  all_chars (fun c => negb (is_line_break c)) s = true.

(** A line of ASCII text: no line boundary in it. *)
Definition plain_line (s : string) : Prop := ascii_only s /\ one_line s.

(** The line is not a top-level heading. *)
Definition no_heading (line : string) : Prop := String.prefix "# " line = false.

(** * Properties *)

(** ** Traces *)

Lemma model_calls_app (a b : list event) :
  model_calls (a ++ b) = model_calls a + model_calls b.
Proof. induction a as [|[] a IH]; simpl; congruence. Qed.

Lemma sleeps_app (a b : list event) : sleeps (a ++ b) = sleeps a ++ sleeps b.
Proof. induction a as [|[] a IH]; simpl; congruence. Qed.

Lemma called_images_app (a b : list event) :
  called_images (a ++ b) = called_images a ++ called_images b.
Proof. induction a as [|[] a IH]; simpl; congruence. Qed.

Lemma emit_emit_all e evs w : emit e (emit_all evs w) = emit_all (evs ++ [e]) w.
Proof. unfold emit, emit_all; simpl. by rewrite <- app_assoc. Qed.

Lemma emit_as_emit_all e w : emit e w = emit_all [e] w.
Proof. reflexivity. Qed.

Lemma emit_all_nil w : emit_all [] w = w.
Proof. destruct w; unfold emit_all; simpl. by rewrite app_nil_r. Qed.

(** ** Substrings *)

Lemma append_cons a (s t : string) : String a s +:+ t = String a (s +:+ t).
Proof. reflexivity. Qed.

Lemma prefix_spec (n h : string) :
  String.prefix n h = true <-> exists after, h = n +:+ after.
Proof.
  revert h; induction n as [|a n IH]; intros h.
  - split; [intros _; exists h; reflexivity | intros _; by destruct h].
  - destruct h as [|b h].
    + split; [discriminate | intros [? ?]; discriminate].
    + cbn [String.prefix]. destruct (Ascii.ascii_dec a b) as [->|Hne].
      * rewrite IH. split; intros [t Ht]; exists t; rewrite append_cons in *; congruence.
      * split; [discriminate | intros [t Ht]; rewrite append_cons in Ht; congruence].
Qed.

Lemma contains_spec (n h : string) : contains n h = true <-> has_substring n h.
Proof.
  induction h as [|b h IH].
  - cbn [contains]. rewrite orb_false_r, prefix_spec. split.
    + intros [t Ht]. by exists "", t.
    + intros [[|c u] [t Ht]]; [by exists t | discriminate].
  - cbn [contains]. rewrite orb_true_iff, prefix_spec, IH. split.
    + intros [[t Ht]|[u [t Ht]]]; [by exists "", t | exists (String b u), t; rewrite append_cons; congruence].
    + intros [[|c u] [t Ht]]; [left; by exists t |].
      right. exists u, t. rewrite append_cons in Ht. congruence.
Qed.

Lemma rate_limit_hit_spec (e : exception) :
  rate_limit_hit e = true <-> rate_limit_signal (exc_str e).
Proof.
  unfold rate_limit_hit, rate_limit_signal.
  by rewrite orb_true_iff, !contains_spec.
Qed.

Lemma rate_limit_hit_false (e : exception) :
  rate_limit_hit e = false <-> ~ rate_limit_signal (exc_str e).
Proof.
  rewrite <- rate_limit_hit_spec. destruct (rate_limit_hit e); split; done.
Qed.

(** ** The retry loop, one attempt at a time *)

Lemma on_error_hit page_num attempt e w :
  rate_limit_hit e = true ->
  on_error page_num attempt e w =
  (30, emit_all [Print (attempt_warning page_num attempt e); Print rate_limit_notice] w).
Proof.
  intros H. unfold on_error. rewrite H. unfold print.
  by rewrite (emit_as_emit_all _ w), emit_emit_all.
Qed.

Lemma on_error_miss page_num attempt e w :
  rate_limit_hit e = false ->
  on_error page_num attempt e w =
  (base_delay * (attempt + 1), emit_all [Print (attempt_warning page_num attempt e)] w).
Proof. intros H. unfold on_error. by rewrite H. Qed.

Lemma on_error_eq page_num attempt e w :
  on_error page_num attempt e w =
  (chosen_delay attempt e, emit_all (error_events page_num attempt e) w).
Proof.
  unfold chosen_delay, error_events. destruct (rate_limit_hit e) eqn:H.
  - by apply on_error_hit.
  - by apply on_error_miss.
Qed.

Lemma try_page_eq lib img page_num w :
  try_page lib img page_num w =
  (try_result lib img w, emit_all (try_events lib img page_num w) w).
Proof.
  unfold try_page, try_result, try_events, call_model, blocked_events.
  destruct (generate_content lib (model_calls (trace w)) img) as [resp|e]; [|done].
  destruct (blocked resp); [|done].
  unfold print, emit, emit_all; simpl. by rewrite <- app_assoc.
Qed.

(** One turn of the loop. *)
Lemma attempts_step lib img page_num attempt rng w :
  attempts lib img page_num (attempt :: rng) w =
  match try_result lib img w with
  | Returns page_text => (Some page_text, emit_all (try_events lib img page_num w) w)
  | Raises e =>
    if (attempt <? max_retries - 1)%nat
    then attempts lib img page_num rng (failed (try_events lib img page_num w) page_num attempt e w)
    else (Some (fallback_marker page_num e),
          emit_all (try_events lib img page_num w ++ error_events page_num attempt e) w)
  end.
Proof.
  cbn [attempts]. rewrite try_page_eq.
  destruct (try_result lib img w) as [page_text|e]; [done|].
  rewrite on_error_eq.
  replace (emit_all (error_events page_num attempt e) (emit_all (try_events lib img page_num w) w))
    with (emit_all (try_events lib img page_num w ++ error_events page_num attempt e) w)
    by (unfold emit_all; simpl; by rewrite <- app_assoc).
  done.
Qed.

Lemma attempts_raises lib img page_num attempt rng w e :
  generate_content lib (model_calls (trace w)) img = Raises e ->
  attempts lib img page_num (attempt :: rng) w =
  let w1 := emit_all (GenerateContent img (Raises e) :: error_events page_num attempt e) w in
  if (attempt <? max_retries - 1)%nat
  then attempts lib img page_num rng (sleep (chosen_delay attempt e) w1)
  else (Some (fallback_marker page_num e), w1).
Proof.
  intros H. rewrite attempts_step. unfold try_result, try_events, failed. by rewrite H.
Qed.

Lemma attempts_returns lib img page_num attempt rng w resp page_text :
  generate_content lib (model_calls (trace w)) img = Returns resp ->
  text resp = Returns page_text ->
  attempts lib img page_num (attempt :: rng) w =
  (Some page_text,
   emit_all (GenerateContent img (Returns resp)
             :: match blocked resp with
                | Some reason => [Print (blocked_warning page_num reason)]
                | None => []
                end) w).
Proof.
  intros H Ht. rewrite attempts_step. unfold try_result, try_events. by rewrite H, Ht.
Qed.

(** A response whose text cannot be read makes the attempt fail like a
    call that raises. *)
Lemma attempts_unreadable lib img page_num attempt rng w resp e :
  generate_content lib (model_calls (trace w)) img = Returns resp ->
  text resp = Raises e ->
  attempts lib img page_num (attempt :: rng) w =
  let evs := GenerateContent img (Returns resp) :: blocked_events page_num resp in
  if (attempt <? max_retries - 1)%nat
  then attempts lib img page_num rng (failed evs page_num attempt e w)
  else (Some (fallback_marker page_num e), emit_all (evs ++ error_events page_num attempt e) w).
Proof.
  intros H Ht. rewrite attempts_step. unfold try_result, try_events. by rewrite H, Ht.
Qed.

Lemma try_events_calls lib img page_num w : model_calls (try_events lib img page_num w) = 1.
Proof.
  unfold try_events, blocked_events.
  destruct (generate_content lib (model_calls (trace w)) img) as [resp|e]; [|done].
  by destruct (blocked resp).
Qed.

Lemma try_events_sleeps lib img page_num w : sleeps (try_events lib img page_num w) = [].
Proof.
  unfold try_events, blocked_events.
  destruct (generate_content lib (model_calls (trace w)) img) as [resp|e]; [|done].
  by destruct (blocked resp).
Qed.

Lemma try_result_returns lib img w page_text :
  try_result lib img w = Returns page_text ->
  exists resp, generate_content lib (model_calls (trace w)) img = Returns resp
               /\ text resp = Returns page_text.
Proof.
  unfold try_result.
  destruct (generate_content lib (model_calls (trace w)) img) as [resp|e]; [eauto|done].
Qed.

Lemma try_result_raises lib img w e :
  try_result lib img w = Raises e -> fails_with lib (model_calls (trace w)) img e.
Proof.
  unfold try_result, fails_with.
  destruct (generate_content lib (model_calls (trace w)) img) as [resp|e'];
    [right; eauto | left; congruence].
Qed.

Lemma error_events_calls page_num attempt e :
  model_calls (error_events page_num attempt e) = 0.
Proof. unfold error_events. by destruct (rate_limit_hit e). Qed.

Lemma retried_calls img page_num attempt e w :
  model_calls (trace (retried img page_num attempt e w)) = S (model_calls (trace w)).
Proof.
  unfold retried, sleep, emit, emit_all; simpl.
  rewrite !model_calls_app. cbn [model_calls]. rewrite error_events_calls. lia.
Qed.

Lemma retried_files img page_num attempt e w :
  files (retried img page_num attempt e w) = files w.
Proof. reflexivity. Qed.

Lemma retried_trace img page_num attempt e w :
  trace (retried img page_num attempt e w) =
  trace w ++ GenerateContent img (Raises e) :: error_events page_num attempt e
          ++ [Sleep (inject_Z (Z.of_nat (chosen_delay attempt e)))].
Proof. unfold retried, sleep, emit, emit_all; simpl. by rewrite <- app_assoc. Qed.

Lemma failed_calls evs page_num attempt e w :
  model_calls (trace (failed evs page_num attempt e w)) = model_calls (trace w) + model_calls evs.
Proof.
  unfold failed, sleep, emit, emit_all; simpl.
  rewrite !model_calls_app. cbn [model_calls]. rewrite error_events_calls. lia.
Qed.

Lemma failed_trace evs page_num attempt e w :
  trace (failed evs page_num attempt e w) =
  trace w ++ evs ++ error_events page_num attempt e
          ++ [Sleep (inject_Z (Z.of_nat (chosen_delay attempt e)))].
Proof. unfold failed, sleep, emit, emit_all; simpl. by rewrite <- !app_assoc. Qed.

Lemma attempts_retry lib img page_num attempt rng w e :
  generate_content lib (model_calls (trace w)) img = Raises e ->
  (attempt < max_retries - 1)%nat ->
  attempts lib img page_num (attempt :: rng) w =
  attempts lib img page_num rng (retried img page_num attempt e w).
Proof.
  intros H Hlt. rewrite (attempts_raises _ _ _ _ _ _ _ H). cbv zeta.
  by apply Nat.ltb_lt in Hlt as ->.
Qed.

Lemma attempts_give_up lib img page_num attempt rng w e :
  generate_content lib (model_calls (trace w)) img = Raises e ->
  (max_retries - 1 <= attempt)%nat ->
  attempts lib img page_num (attempt :: rng) w =
  (Some (fallback_marker page_num e),
   emit_all (GenerateContent img (Raises e) :: error_events page_num attempt e) w).
Proof.
  intros H Hge. rewrite (attempts_raises _ _ _ _ _ _ _ H). cbv zeta.
  by apply Nat.ltb_ge in Hge as ->.
Qed.

(** ** The retry controller *)

(** C1: a page whose extraction fails on each of the three attempts with
    an error that is not a rate-limit error costs exactly three model
    calls (with the two linear sleeps between them and no fourth call),
    and [process_page_vision] then returns the comment that embeds the
    page number and the last error's description; nothing is raised and
    no file is touched. *)
Theorem exhausted_retries_give_fallback lib img page_num w e0 e1 e2 :
  generate_content lib (model_calls (trace w)) img = Raises e0 ->
  generate_content lib (model_calls (trace w) + 1) img = Raises e1 ->
  generate_content lib (model_calls (trace w) + 2) img = Raises e2 ->
  ~ rate_limit_signal (exc_str e0) ->
  ~ rate_limit_signal (exc_str e1) ->
  ~ rate_limit_signal (exc_str e2) ->
  exists w',
    process_page_vision lib img page_num w =
      (Some ("<!-- Error processing page " +:+ pretty page_num +:+ ": " +:+ exc_str e2 +:+ " -->"), w')
    /\ trace w' = trace w ++
         [GenerateContent img (Raises e0); Print (attempt_warning page_num 0 e0); Sleep 5;
          GenerateContent img (Raises e1); Print (attempt_warning page_num 1 e1); Sleep 10;
          GenerateContent img (Raises e2); Print (attempt_warning page_num 2 e2)]
    /\ model_calls (trace w') = model_calls (trace w) + 3
    /\ files w' = files w.
Proof.
  intros H0 H1 H2 N0 N1 N2.
  apply rate_limit_hit_false in N0, N1, N2.
  unfold process_page_vision. cbn [seq max_retries].
  rewrite (attempts_retry _ _ _ _ _ _ e0) by (done || (unfold max_retries; lia)).
  rewrite (attempts_retry _ _ _ _ _ _ e1); [| |unfold max_retries; lia]; cycle 1.
  { by rewrite retried_calls, <- Nat.add_1_r. }
  rewrite (attempts_give_up _ _ _ _ _ _ e2); [| |unfold max_retries; lia]; cycle 1.
  { rewrite !retried_calls. by replace (S (S (model_calls (trace w)))) with (model_calls (trace w) + 2) by lia. }
  eexists; split; [reflexivity|].
  unfold emit_all; cbn [trace files]. rewrite !retried_trace, !retried_files.
  unfold error_events, chosen_delay. rewrite N0, N1, N2.
  split; [|split; [|done]].
  - rewrite <- !app_assoc. reflexivity.
  - rewrite !model_calls_app. simpl. lia.
Qed.

Lemma exhausted_retries_witness :
  exists w',
    process_page_vision (Sample.with_model (fun _ _ => Raises Sample.generic)) (Image 1) 1 Sample.w0 =
      (Some "<!-- Error processing page 1: 500 Internal error -->", w')
    /\ model_calls (trace w') = 3
    /\ sleeps (trace w') = [5; 10]%Q.
Proof.
  destruct (exhausted_retries_give_fallback
              (Sample.with_model (fun _ _ => Raises Sample.generic)) (Image 1) 1 Sample.w0
              Sample.generic Sample.generic Sample.generic)
    as (w' & Hrun & Htrace & Hcalls & _);
    try reflexivity; try (by apply rate_limit_hit_false).
  exists w'. split; [exact Hrun|]. split; [exact Hcalls|]. rewrite Htrace. reflexivity.
Defined.

(** C3: when an attempt fails with an error whose description carries a
    rate-limit signal, the delay chosen is 30 seconds whatever the
    attempt number, and whenever a retry follows (the first attempt
    included) the loop prints its notice, sleeps exactly 30 seconds and
    goes on with the next attempt; the linear formula plays no part. *)
Theorem rate_limit_waits_thirty lib img page_num attempt rng w e :
  generate_content lib (model_calls (trace w)) img = Raises e ->
  rate_limit_signal (exc_str e) ->
  fst (on_error page_num attempt e (emit (GenerateContent img (Raises e)) w)) = 30
  /\ ((attempt < max_retries - 1)%nat ->
      attempts lib img page_num (attempt :: rng) w =
      attempts lib img page_num rng
        (emit_all [GenerateContent img (Raises e); Print (attempt_warning page_num attempt e);
                   Print rate_limit_notice; Sleep 30] w)).
Proof.
  intros H Hsig. apply rate_limit_hit_spec in Hsig. split.
  - by rewrite on_error_hit.
  - intros Hlt. rewrite (attempts_retry _ _ _ _ _ _ e) by done.
    f_equal. unfold retried, chosen_delay, error_events. rewrite Hsig.
    unfold sleep, emit, emit_all; cbn [files trace]. by rewrite <- app_assoc.
Qed.

Lemma rate_limit_waits_thirty_witness :
  sleeps (trace (snd (process_page_vision
                        (Sample.with_model (fun _ _ => Raises Sample.quota)) (Image 1) 1 Sample.w0)))
  = [30; 30]%Q.
Proof.
  unfold process_page_vision. cbn [seq max_retries].
  assert (Hq : rate_limit_signal (exc_str Sample.quota))
    by (apply rate_limit_hit_spec; reflexivity).
  destruct (rate_limit_waits_thirty (Sample.with_model (fun _ _ => Raises Sample.quota))
              (Image 1) 1 0 [1; 2] Sample.w0 Sample.quota eq_refl Hq) as [_ H].
  rewrite H by (unfold max_retries; lia). reflexivity.
Defined.

(** C4: when an attempt fails with an error that carries no rate-limit
    signal, the delay chosen at attempt [n] (counted from 0) is
    [base_delay * (n + 1)] with [base_delay = 5], and that is what the
    loop sleeps before the retry; a page that fails twice with such
    errors and then gets a response has waited 5 and then 10 seconds and
    returns the text of the third call (the fallback comment when that
    text cannot be read). *)
Theorem generic_errors_back_off_linearly lib img page_num w :
  (forall attempt rng e,
      generate_content lib (model_calls (trace w)) img = Raises e ->
      ~ rate_limit_signal (exc_str e) ->
      fst (on_error page_num attempt e (emit (GenerateContent img (Raises e)) w)) = 5 * (attempt + 1)
      /\ ((attempt < max_retries - 1)%nat ->
          attempts lib img page_num (attempt :: rng) w =
          attempts lib img page_num rng
            (emit_all [GenerateContent img (Raises e); Print (attempt_warning page_num attempt e);
                       Sleep (inject_Z (Z.of_nat (5 * (attempt + 1))))] w)))
  /\ (forall e0 e1 resp,
      generate_content lib (model_calls (trace w)) img = Raises e0 ->
      generate_content lib (model_calls (trace w) + 1) img = Raises e1 ->
      generate_content lib (model_calls (trace w) + 2) img = Returns resp ->
      ~ rate_limit_signal (exc_str e0) ->
      ~ rate_limit_signal (exc_str e1) ->
      exists w',
        process_page_vision lib img page_num w =
          (Some match text resp with
                | Returns page_text => page_text
                | Raises e => fallback_marker page_num e
                end, w')
        /\ sleeps (trace w') = sleeps (trace w) ++ [5; 10]%Q
        /\ model_calls (trace w') = model_calls (trace w) + 3).
Proof.
  split.
  - intros attempt rng e H Hsig. apply rate_limit_hit_false in Hsig. split.
    + by rewrite on_error_miss.
    + intros Hlt. rewrite (attempts_retry _ _ _ _ _ _ e) by done.
      f_equal. unfold retried, chosen_delay, error_events. rewrite Hsig.
      unfold sleep, emit, emit_all; cbn [files trace]. by rewrite <- app_assoc.
  - intros e0 e1 resp H0 H1 H2 N0 N1. apply rate_limit_hit_false in N0, N1.
    unfold process_page_vision. cbn [seq max_retries].
    rewrite (attempts_retry _ _ _ _ _ _ e0) by (done || (unfold max_retries; lia)).
    rewrite (attempts_retry _ _ _ _ _ _ e1); [| |unfold max_retries; lia]; cycle 1.
    { by rewrite retried_calls, <- Nat.add_1_r. }
    assert (H2' : generate_content lib
                    (model_calls (trace (retried img page_num 1 e1 (retried img page_num 0 e0 w))))
                    img = Returns resp).
    { rewrite !retried_calls.
      by replace (S (S (model_calls (trace w)))) with (model_calls (trace w) + 2) by lia. }
    destruct (text resp) as [page_text|e2] eqn:Ht.
    + rewrite (attempts_returns _ _ _ _ _ _ resp page_text) by done.
      eexists; split; [reflexivity|].
      unfold emit_all; cbn [trace files]. rewrite !retried_trace.
      unfold error_events, chosen_delay. rewrite N0, N1. split.
      * rewrite !sleeps_app. cbn [sleeps]. destruct (blocked resp); cbn [sleeps app];
          rewrite ?app_nil_r, <- ?app_assoc; reflexivity.
      * rewrite !model_calls_app. destruct (blocked resp); cbn [model_calls app]; lia.
    + rewrite (attempts_unreadable _ _ _ _ _ _ resp e2) by done. cbv zeta.
      replace (2 <? max_retries - 1)%nat with false by done.
      eexists; split; [reflexivity|].
      unfold emit_all; cbn [trace files]. rewrite !retried_trace.
      unfold error_events, chosen_delay, blocked_events. rewrite N0, N1. split.
      * rewrite !sleeps_app. cbn [sleeps].
        destruct (blocked resp), (rate_limit_hit e2); cbn [sleeps app];
          rewrite ?app_nil_r, <- ?app_assoc; reflexivity.
      * rewrite !model_calls_app.
        destruct (blocked resp), (rate_limit_hit e2); cbn [model_calls app]; lia.
Qed.

Lemma generic_errors_back_off_witness :
  exists w',
    process_page_vision Sample.lib (Image 1) 1 Sample.w0 = (Some "<div>hello</div>", w')
    /\ sleeps (trace w') = [5; 10]%Q
    /\ model_calls (trace w') = 3.
Proof.
  destruct (generic_errors_back_off_linearly Sample.lib (Image 1) 1 Sample.w0) as [_ H].
  apply (H Sample.generic Sample.generic (Sample.ok "<div>hello</div>"));
    try reflexivity; by apply rate_limit_hit_false.
Defined.

(** C8: what the loop does with a blocked prompt as the client reports
    it, a response with a block reason and no text to read.  The
    warning is printed, but reading [response.text] raises inside the
    [try], so the block is handled as a failed attempt: the call is
    made three times, with the sleeps of 5 and 10 seconds between, and
    the page ends as the fallback comment around the error of the
    reading, not as the response's text. *)
Theorem blocked_prompt_without_text_is_retried lib img page_num w resp fb e :
  (forall k, generate_content lib k img = Returns resp) ->
  prompt_feedback resp = Some fb ->
  reason_value (block_reason fb) <> 0%N ->
  text resp = Raises e ->
  ~ rate_limit_signal (exc_str e) ->
  process_page_vision lib img page_num w =
    (Some ("<!-- Error processing page " +:+ pretty page_num +:+ ": " +:+ exc_str e +:+ " -->"),
     emit_all [GenerateContent img (Returns resp);
               Print (blocked_warning page_num (block_reason fb));
               Print (attempt_warning page_num 0 e); Sleep 5;
               GenerateContent img (Returns resp);
               Print (blocked_warning page_num (block_reason fb));
               Print (attempt_warning page_num 1 e); Sleep 10;
               GenerateContent img (Returns resp);
               Print (blocked_warning page_num (block_reason fb));
               Print (attempt_warning page_num 2 e)] w).
Proof.
  intros H Hfb Hreason Ht Hsig. apply rate_limit_hit_false in Hsig.
  assert (Hb : blocked resp = Some (block_reason fb)).
  { unfold blocked. rewrite Hfb. by apply N.eqb_neq in Hreason as ->. }
  unfold process_page_vision. cbn [seq max_retries].
  rewrite (attempts_unreadable _ _ _ _ _ _ resp e) by done. cbv zeta.
  replace (0 <? max_retries - 1)%nat with true by done.
  rewrite (attempts_unreadable _ _ _ _ _ _ resp e) by done. cbv zeta.
  replace (1 <? max_retries - 1)%nat with true by done.
  rewrite (attempts_unreadable _ _ _ _ _ _ resp e) by done. cbv zeta.
  replace (2 <? max_retries - 1)%nat with false by done.
  f_equal. unfold failed, blocked_events, error_events, chosen_delay, sleep, emit, emit_all.
  rewrite Hb, Hsig. cbn [files trace]. f_equal. by rewrite <- !app_assoc.
Qed.

Lemma blocked_prompt_without_text_witness :
  exists w',
    process_page_vision (Sample.with_model (fun _ _ => Returns Sample.refused)) (Image 1) 1 Sample.w0
    = (Some ("<!-- Error processing page 1: " +:+ exc_str Sample.no_text +:+ " -->"), w')
    /\ model_calls (trace w') = 3
    /\ sleeps (trace w') = [5; 10]%Q.
Proof.
  assert (Hsig : ~ rate_limit_signal (exc_str Sample.no_text))
    by (by apply rate_limit_hit_false).
  assert (Hreason : reason_value (block_reason {| block_reason := Sample.safety |}) <> 0%N)
    by discriminate.
  eexists. split.
  - exact (blocked_prompt_without_text_is_retried
             (Sample.with_model (fun _ _ => Returns Sample.refused)) (Image 1) 1 Sample.w0
             Sample.refused {| block_reason := Sample.safety |} Sample.no_text
             (fun _ => eq_refl) eq_refl Hreason eq_refl Hsig).
  - split; reflexivity.
Defined.

(** X18: a response that reports a block reason and whose text can be
    read is only warned about: [process_page_vision] prints the warning
    and returns that text (empty or not) after this single model call,
    without any sleep or error comment; for a response without block
    reason it does the same without the warning. *)
Theorem readable_response_is_returned lib img page_num w resp page_text :
  generate_content lib (model_calls (trace w)) img = Returns resp ->
  text resp = Returns page_text ->
  (forall fb,
      prompt_feedback resp = Some fb -> reason_value (block_reason fb) <> 0%N ->
      process_page_vision lib img page_num w =
        (Some page_text,
         emit_all [GenerateContent img (Returns resp);
                   Print ("  [WARN] Page " +:+ pretty page_num +:+ " blocked: "
                          +:+ reason_str (block_reason fb))] w))
  /\ (blocked resp = None ->
      process_page_vision lib img page_num w =
        (Some page_text, emit_all [GenerateContent img (Returns resp)] w)).
Proof.
  intros H Ht. unfold process_page_vision. cbn [seq max_retries].
  rewrite (attempts_returns _ _ _ _ _ _ resp page_text) by done. split.
  - intros fb Hfb Hreason. unfold blocked. rewrite Hfb.
    by apply N.eqb_neq in Hreason as ->.
  - by intros ->.
Qed.

Lemma readable_response_witness :
  process_page_vision (Sample.with_model (fun _ _ => Returns (Sample.flagged "kept")))
    (Image 1) 1 Sample.w0
  = (Some "kept",
     emit_all [GenerateContent (Image 1) (Returns (Sample.flagged "kept"));
               Print "  [WARN] Page 1 blocked: BlockReason.SAFETY"] Sample.w0).
Proof.
  destruct (readable_response_is_returned
              (Sample.with_model (fun _ _ => Returns (Sample.flagged "kept"))) (Image 1) 1 Sample.w0
              (Sample.flagged "kept") "kept" eq_refl eq_refl) as [H _].
  apply (H {| block_reason := Sample.safety |}); [reflexivity | discriminate].
Defined.

(** C10: the [except] branch takes its rate-limit path exactly when
    [str(e)] contains "429" or "Resource exhausted" (in that spelling):
    then it prints its notice and chooses 30 seconds; otherwise it
    chooses [base_delay * (attempt + 1)] and prints no notice.  Only the
    string counts: two errors with the same description are handled
    alike whatever their class, and a description in another case is
    not a signal. *)
Theorem rate_limit_is_read_off_the_description page_num attempt e w :
  (rate_limit_hit e = true <-> rate_limit_signal (exc_str e))
  /\ (rate_limit_signal (exc_str e) ->
      on_error page_num attempt e w =
      (30, emit_all [Print (attempt_warning page_num attempt e); Print rate_limit_notice] w))
  /\ (~ rate_limit_signal (exc_str e) ->
      on_error page_num attempt e w =
      (base_delay * (attempt + 1), emit_all [Print (attempt_warning page_num attempt e)] w))
  /\ (forall e', exc_str e' = exc_str e ->
      on_error page_num attempt e' w = on_error page_num attempt e w)
  /\ rate_limit_hit {| exc_class := exc_class e; exc_str := "resource exhausted" |} = false.
Proof.
  split; [apply rate_limit_hit_spec|].
  split; [intros H; apply on_error_hit; by apply rate_limit_hit_spec|].
  split; [intros H; apply on_error_miss; by apply rate_limit_hit_false|].
  split; [|reflexivity].
  intros e' Heq. unfold on_error, attempt_warning, rate_limit_hit. by rewrite Heq.
Qed.

Lemma rate_limit_classification_witness :
  on_error 1 0 Sample.quota Sample.w0 =
    (30, emit_all [Print "  [WARN] Error processing page 1 (Attempt 1/3): 429 Resource exhausted";
                   Print rate_limit_notice] Sample.w0)
  /\ on_error 1 0 Sample.generic Sample.w0 =
    (5, emit_all [Print "  [WARN] Error processing page 1 (Attempt 1/3): 500 Internal error"] Sample.w0).
Proof.
  split.
  - destruct (rate_limit_is_read_off_the_description 1 0 Sample.quota Sample.w0)
      as (_ & Hhit & _).
    apply Hhit, rate_limit_hit_spec. reflexivity.
  - destruct (rate_limit_is_read_off_the_description 1 0 Sample.generic Sample.w0)
      as (_ & _ & Hmiss & _).
    apply Hmiss, rate_limit_hit_false. reflexivity.
Defined.

(** ** One page, whatever the model does *)

Lemma page_events_of_page img evs :
  Forall (page_event_of img) evs -> Forall page_event evs.
Proof. intros H. eapply Forall_impl; [exact H|]. by intros []. Qed.

Lemma called_images_of img evs :
  Forall (page_event_of img) evs -> called_images evs = replicate (model_calls evs) img.
Proof.
  induction 1 as [|ev evs Hev _ IH]; [done|].
  destruct ev; cbn [called_images model_calls replicate]; try done.
  cbn in Hev. by rewrite IH, Hev.
Qed.

Lemma error_events_page img page_num attempt e :
  Forall (page_event_of img) (error_events page_num attempt e).
Proof. unfold error_events. destruct (rate_limit_hit e); repeat constructor. Qed.

Lemma try_events_page lib img page_num w :
  Forall (page_event_of img) (try_events lib img page_num w).
Proof.
  unfold try_events, blocked_events.
  destruct (generate_content lib (model_calls (trace w)) img) as [resp|e];
    [destruct (blocked resp)|]; by repeat constructor.
Qed.

Lemma attempts_frame lib img page_num rng : forall w,
  exists evs,
    snd (attempts lib img page_num rng w) = emit_all evs w
    /\ Forall (page_event_of img) evs
    /\ model_calls evs <= length rng.
Proof.
  induction rng as [|attempt rng IH]; intros w.
  - exists []. cbn [attempts snd]. by rewrite emit_all_nil.
  - rewrite attempts_step. destruct (try_result lib img w) as [page_text|e].
    + cbn [snd]. eexists; split; [reflexivity|]. split; [apply try_events_page|].
      rewrite try_events_calls. cbn [length]. lia.
    + destruct (attempt <? max_retries - 1)%nat.
      * destruct (IH (failed (try_events lib img page_num w) page_num attempt e w))
          as (evs & -> & Hev & Hcalls).
        exists ((try_events lib img page_num w ++ error_events page_num attempt e)
                ++ Sleep (inject_Z (Z.of_nat (chosen_delay attempt e))) :: evs).
        split; [|split].
        -- unfold failed, sleep, emit, emit_all; cbn [files trace]. by rewrite <- !app_assoc.
        -- apply Forall_app; split; [|by constructor].
           apply Forall_app; split; [apply try_events_page | apply error_events_page].
        -- rewrite !model_calls_app. cbn [model_calls length].
           rewrite try_events_calls, error_events_calls. lia.
      * cbn [snd]. eexists; split; [reflexivity|]. split.
        -- apply Forall_app; split; [apply try_events_page | apply error_events_page].
        -- rewrite model_calls_app, try_events_calls, error_events_calls. cbn [length]. lia.
Qed.

(** [process_page_vision] always returns a string: the loop cannot run
    out, because its third attempt returns on success and on failure. *)
Lemma process_page_vision_returns lib img page_num w :
  exists r evs,
    process_page_vision lib img page_num w = (Some r, emit_all evs w)
    /\ page_result lib img page_num r
    /\ Forall (page_event_of img) evs
    /\ 1 <= model_calls evs <= max_retries.
Proof.
  destruct (attempts_frame lib img page_num (seq 0 max_retries) w) as (evs & Hw & Hev & Hle).
  fold (process_page_vision lib img page_num w) in Hw.
  assert (exists r, fst (process_page_vision lib img page_num w) = Some r
                    /\ page_result lib img page_num r
                    /\ 1 <= model_calls (trace (snd (process_page_vision lib img page_num w)))
                            - model_calls (trace w)) as (r & Hr & Hres & Hone).
  { unfold process_page_vision. cbn [seq max_retries].
    rewrite attempts_step. destruct (try_result lib img w) as [t|e0] eqn:T0.
    { exists t. cbn [fst snd]. split; [done|].
      apply try_result_returns in T0 as (resp & ? & ?). split; [left; eauto|].
      unfold emit_all; cbn [trace]. rewrite model_calls_app, try_events_calls. lia. }
    replace (0 <? max_retries - 1)%nat with true by done.
    set (w1 := failed (try_events lib img page_num w) page_num 0 e0 w).
    assert (Hc1 : model_calls (trace w1) = model_calls (trace w) + 1)
      by (unfold w1; by rewrite failed_calls, try_events_calls).
    rewrite attempts_step. destruct (try_result lib img w1) as [t|e1] eqn:T1.
    { exists t. cbn [fst snd]. split; [done|].
      apply try_result_returns in T1 as (resp & ? & ?). split; [left; eauto|].
      unfold emit_all; cbn [trace]. rewrite model_calls_app, try_events_calls. lia. }
    replace (1 <? max_retries - 1)%nat with true by done.
    set (w2 := failed (try_events lib img page_num w1) page_num 1 e1 w1).
    assert (Hc2 : model_calls (trace w2) = model_calls (trace w1) + 1)
      by (unfold w2; by rewrite failed_calls, try_events_calls).
    rewrite attempts_step. destruct (try_result lib img w2) as [t|e2] eqn:T2.
    { exists t. cbn [fst snd]. split; [done|].
      apply try_result_returns in T2 as (resp & ? & ?). split; [left; eauto|].
      unfold emit_all; cbn [trace]. rewrite model_calls_app, try_events_calls. lia. }
    replace (2 <? max_retries - 1)%nat with false by done.
    exists (fallback_marker page_num e2). cbn [fst snd]. split; [done|].
    apply try_result_raises in T2. split; [right; eauto|].
    unfold emit_all; cbn [trace]. rewrite !model_calls_app, try_events_calls. lia. }
  exists r, evs. rewrite <- Hw. split; [|split; [done|split; [done|]]].
  - rewrite <- Hr. by destruct (process_page_vision lib img page_num w).
  - rewrite Hw in Hone. unfold emit_all in Hone; cbn [trace] in Hone.
    rewrite model_calls_app in Hone. rewrite length_seq in Hle. lia.
Qed.

(** ** The artifact *)

Lemma append_assoc (a b c : string) : (a +:+ b) +:+ c = a +:+ b +:+ c.
Proof. induction a as [|x a IH]; [done|]. rewrite !append_cons. by rewrite IH. Qed.

Lemma results_of_length lib images : forall index results,
  results_of lib index images results -> length results = length images.
Proof.
  induction images as [|img images IH]; intros index [|r results] H; try done.
  destruct H as [_ H]. cbn [length]. f_equal. by apply (IH (index + 1)).
Qed.

Lemma pages_spec lib output_path images : forall i w content,
  files w !! output_path = Some content ->
  exists results evs,
    pages lib output_path i images w =
      (Returned,
       {| files := <[output_path := content +:+ page_blocks (i + 1) results]> (files w);
          trace := trace w ++ evs |})
    /\ results_of lib (i + 1) images results
    /\ Forall page_event evs
    /\ length images <= model_calls evs <= max_retries * length images
    /\ one_by_one images (called_images evs).
Proof.
  induction images as [|img images IH]; intros i w content Hfile.
  - exists [], []. cbn [pages page_blocks].
    split; [|split; [done|split; [done|split; [cbn; lia|by exists []]]]].
    f_equal. destruct w as [fs tr]; cbn [files trace] in *. f_equal.
    + rewrite insert_id; [done|]. rewrite Hfile. f_equal.
      clear. induction content as [|x c IHc]; [done|]. rewrite append_cons. congruence.
    + by rewrite app_nil_r.
  - cbn [pages].
    destruct (process_page_vision_returns lib img (i + 1) w) as (r & evs & -> & Hres & Hev & Hcalls).
    set (marker := nl +:+ "<!-- Page " +:+ pretty (i + 1) +:+ " -->" +:+ nl).
    set (w1 := emit (Sleep (1 # 2))
                 (append_file output_path (r +:+ nl)
                    (append_file output_path marker (emit_all evs w)))).
    assert (Hw1 : files w1 = <[output_path := (content +:+ marker) +:+ r +:+ nl]> (files w)).
    { unfold w1, emit, append_file, emit_all; cbn [files]. rewrite Hfile.
      rewrite lookup_insert_eq. cbn [default]. by rewrite insert_insert_eq. }
    destruct (IH (i + 1) w1 ((content +:+ marker) +:+ r +:+ nl))
      as (results & evs' & -> & Hrs & Hev' & Hcalls' & attempts' & Hlen' & Hbound' & Himgs').
    { rewrite Hw1. apply lookup_insert_eq. }
    exists (r :: results), (evs ++ Sleep (1 # 2) :: evs').
    split; [|split; [done|split; [|split]]].
    + f_equal. f_equal.
      * rewrite Hw1, insert_insert_eq. f_equal.
        cbn [page_blocks]. fold marker. unfold marker. by rewrite !append_assoc.
      * unfold w1, emit, append_file, emit_all; cbn [trace]. by rewrite <- !app_assoc.
    + apply Forall_app; split; [by apply (page_events_of_page img)|]. by constructor.
    + rewrite model_calls_app. cbn [model_calls length]. unfold max_retries in *. lia.
    + exists (model_calls evs :: attempts'). split; [cbn [length]; congruence|].
      split; [by constructor|].
      rewrite called_images_app. cbn [called_images zip_with concat].
      by rewrite (called_images_of img), Himgs'.
Qed.

(** ** The driver *)

Lemma path_exists_true p w : path_exists p w = true <-> is_Some (files w !! p).
Proof. unfold path_exists. by rewrite bool_decide_eq_true. Qed.

Lemma process_pdf_skips lib pdf_path output_path w :
  path_exists output_path w = true ->
  process_pdf lib pdf_path output_path w =
  (Returned, {| files := files w; trace := trace w ++ [Print (skip_line lib pdf_path)] |}).
Proof. intros H. unfold process_pdf. by rewrite H. Qed.

Lemma process_pdf_aborts lib pdf_path output_path w e :
  path_exists output_path w = false ->
  convert_from_path lib pdf_path 200 = Raises e ->
  process_pdf lib pdf_path output_path w =
  (Returned,
   {| files := files w;
      trace := trace w ++ [Print (processing_line lib pdf_path);
                           ConvertFromPath pdf_path 200 (Raises e);
                           Print ("[ERROR] Converting PDF to images: " +:+ exc_str e)] |}).
Proof.
  intros H He. unfold process_pdf. rewrite H, He.
  unfold print, emit; cbn [files trace]. by rewrite <- !app_assoc.
Qed.

Lemma process_pdf_runs lib pdf_path output_path w images :
  path_exists output_path w = false ->
  convert_from_path lib pdf_path 200 = Returns images ->
  exists results evs,
    process_pdf lib pdf_path output_path w =
      (Returned,
       {| files := <[output_path := artifact (path_stem lib pdf_path) results]> (files w);
          trace := trace w ++ Print (processing_line lib pdf_path)
                           :: ConvertFromPath pdf_path 200 (Returns images) :: evs |})
    /\ results_of lib 1 images results
    /\ Forall page_event evs
    /\ length images <= model_calls evs <= max_retries * length images
    /\ one_by_one images (called_images evs).
Proof.
  intros H Himgs. unfold process_pdf. rewrite H, Himgs.
  set (head := "<!-- Source: " +:+ path_stem lib pdf_path +:+ " -->" +:+ nl +:+ nl).
  set (w1 := write_file output_path head _).
  destruct (pages_spec lib output_path images 0 w1 head)
    as (results & evs & -> & Hrs & Hev & Hcalls & Hone).
  { unfold w1, write_file; cbn [files]. apply lookup_insert_eq. }
  exists results, evs. split; [|done].
  f_equal. f_equal.
  - unfold w1, write_file, print, emit; cbn [files]. rewrite insert_insert_eq. f_equal.
    unfold artifact, head. by rewrite !append_assoc.
  - unfold w1, write_file, print, emit; cbn [trace]. by rewrite <- !app_assoc.
Qed.

(** C5: a run over an [N]-page document whose artifact is not there yet
    returns normally and leaves an artifact that is the header line
    [<!-- Source: name -->], a blank line, and then exactly [N] blocks in
    page order, numbered from 1: the marker line [<!-- Page i -->]
    immediately followed by page [i]'s result, which is either the text
    of a response the model gave for that page's image or the comment
    [<!-- Error processing page i: description -->] for an error that
    made an attempt on that image fail. *)
Theorem artifact_has_one_marked_block_per_page lib pdf_path output_path w images :
  path_exists output_path w = false ->
  convert_from_path lib pdf_path 200 = Returns images ->
  exists results w',
    process_pdf lib pdf_path output_path w = (Returned, w')
    /\ files w' !! output_path = Some (artifact (path_stem lib pdf_path) results)
    /\ length results = length images
    /\ results_of lib 1 images results.
Proof.
  intros H Himgs.
  destruct (process_pdf_runs lib pdf_path output_path w images H Himgs)
    as (results & evs & Hrun & Hrs & _).
  eexists results, _. split; [exact Hrun|]. cbn [files].
  split; [apply lookup_insert_eq|]. split; [|done].
  by apply (results_of_length lib images 1).
Qed.

Lemma artifact_witness :
  exists w',
    process_pdf Sample.lib "scan.pdf" "scan.md" Sample.w0 = (Returned, w')
    /\ files w' !! "scan.md"
       = Some ("<!-- Source: scan -->" +:+ nl +:+ nl
               +:+ nl +:+ "<!-- Page 1 -->" +:+ nl +:+ "<div>hello</div>" +:+ nl
               +:+ nl +:+ "<!-- Page 2 -->" +:+ nl +:+ "<div>bye</div>" +:+ nl).
Proof.
  destruct (artifact_has_one_marked_block_per_page Sample.lib "scan.pdf" "scan.md" Sample.w0
              [Image 1; Image 2] eq_refl eq_refl) as (results & w' & Hrun & _).
  exists w'. split; [exact Hrun|].
  apply (f_equal snd) in Hrun. cbn [snd] in Hrun. rewrite <- Hrun. reflexivity.
Defined.

(** C2: when the artifact is already there, a run is a no-op for the
    extraction: it only prints its skip line; the page source is not
    called, the model is not called, and no file changes.  Hence, of two
    runs in a row on the same destination (whatever the libraries do in
    each), either the first made no model call or the second is such a
    skip. *)
Theorem existing_artifact_skips_the_job lib lib' pdf_path output_path w :
  let run1 := process_pdf lib pdf_path output_path w in
  let run2 := process_pdf lib' pdf_path output_path (snd run1) in
  (path_exists output_path w = true ->
   run1 = (Returned, {| files := files w; trace := trace w ++ [Print (skip_line lib pdf_path)] |}))
  /\ (model_calls (trace (snd run1)) = model_calls (trace w)
      \/ run2 = (Returned, {| files := files (snd run1);
                              trace := trace (snd run1) ++ [Print (skip_line lib' pdf_path)] |})).
Proof.
  cbv zeta. split; [apply process_pdf_skips|].
  destruct (path_exists output_path w) eqn:H.
  - left. rewrite process_pdf_skips by done. cbn [snd trace].
    rewrite model_calls_app. cbn. lia.
  - destruct (convert_from_path lib pdf_path 200) as [images|e] eqn:Hc.
    + right. apply process_pdf_skips.
      destruct (process_pdf_runs lib pdf_path output_path w images H Hc) as (results & evs & -> & _).
      apply path_exists_true. cbn [snd files]. rewrite lookup_insert_eq. eauto.
    + left. rewrite (process_pdf_aborts _ _ _ _ e) by done. cbn [snd trace].
      rewrite model_calls_app. cbn. lia.
Qed.

Lemma existing_artifact_witness :
  process_pdf Sample.lib "scan.pdf" "scan.md"
    {| files := {[ "scan.md" := "kept" ]}; trace := [] |}
  = (Returned, {| files := {[ "scan.md" := "kept" ]};
                  trace := [Print "[SKIP] scan (already exists)"] |}).
Proof.
  destruct (existing_artifact_skips_the_job Sample.lib Sample.lib "scan.pdf" "scan.md"
              {| files := {[ "scan.md" := "kept" ]}; trace := [] |}) as [H _].
  apply H. reflexivity.
Defined.

(** C6: when the page source raises on the document, the run stops
    before anything is written: no file changes, so the artifact still
    does not exist, and a later run of the same job is not skipped but
    calls the page source again. *)
Theorem undecodable_document_leaves_no_artifact lib lib' pdf_path output_path w e :
  path_exists output_path w = false ->
  convert_from_path lib pdf_path 200 = Raises e ->
  exists w',
    process_pdf lib pdf_path output_path w = (Returned, w')
    /\ files w' = files w
    /\ path_exists output_path w' = false
    /\ model_calls (trace w') = model_calls (trace w)
    /\ exists evs,
        trace (snd (process_pdf lib' pdf_path output_path w')) =
        trace w' ++ Print (processing_line lib' pdf_path)
                 :: ConvertFromPath pdf_path 200 (convert_from_path lib' pdf_path 200) :: evs.
Proof.
  intros H He. eexists. split; [by apply process_pdf_aborts|]. cbn [files trace].
  split; [done|]. split; [done|]. split.
  { rewrite model_calls_app. cbn. lia. }
  set (w' := {| files := files w; trace := _ |}).
  assert (H' : path_exists output_path w' = false) by done.
  destruct (convert_from_path lib' pdf_path 200) as [images|e'] eqn:Hc.
  - destruct (process_pdf_runs lib' pdf_path output_path w' images H' Hc) as (results & evs & -> & _).
    by exists evs.
  - rewrite (process_pdf_aborts _ _ _ _ e') by done. cbn [snd trace]. eauto.
Qed.

Lemma undecodable_document_witness :
  exists w',
    process_pdf Sample.undecodable "scan.pdf" "scan.md" Sample.w0 = (Returned, w')
    /\ files w' = files Sample.w0
    /\ path_exists "scan.md" w' = false.
Proof.
  destruct (undecodable_document_leaves_no_artifact Sample.undecodable Sample.lib
              "scan.pdf" "scan.md" Sample.w0 Sample.corrupt eq_refl eq_refl)
    as (w' & Hrun & Hfiles & Hnone & _).
  by exists w'.
Defined.

(** ** Exit status *)

(** C7 as stated fails: with a credential and an input file in place, a
    document that the page source cannot decode is a fatal error of the
    run, and yet the script exits with status 0. *)
Lemma undecodable_document_exits_zero :
  fatal_error Sample.undecodable Sample.ps Sample.w0
  /\ fst (script Sample.undecodable Sample.ps Sample.w0) = 0%Z.
Proof.
  split; [|reflexivity].
  by apply (Undecodable_document _ _ _ Sample.corrupt).
Qed.

(** C7, amended: each fatal error prints a diagnostic line.  A missing
    credential and a missing input file end the process with status 1
    before anything else is done; a document that cannot be decoded
    prints its diagnostic, leaves the files as they were, and the
    process ends with status 0. *)
Theorem fatal_errors_are_reported lib ps w :
  (py_not (api_key ps) = true ->
   script lib ps w =
   (1%Z, emit_all [Print "[ERROR] GEMINI_API_KEY or GOOGLE_API_KEY not found in environment."] w))
  /\ (py_not (api_key ps) = false ->
      path_exists (args_file ps) w = false ->
      script lib ps w =
      (1%Z, emit_all [Print ("[ERROR] Input file not found: " +:+ args_file ps)] w))
  /\ (forall e,
      py_not (api_key ps) = false ->
      path_exists (args_file ps) w = true ->
      path_exists (args_output ps) w = false ->
      convert_from_path lib (args_file ps) 200 = Raises e ->
      script lib ps w =
      (0%Z, emit_all [Print ("[INFO] Processing " +:+ path_name lib (args_file ps) +:+ " -> "
                             +:+ path_name lib (args_output ps));
                      Print (processing_line lib (args_file ps));
                      ConvertFromPath (args_file ps) 200 (Raises e);
                      Print ("[ERROR] Converting PDF to images: " +:+ exc_str e)] w)).
Proof.
  split; [|split].
  - intros Hkey. unfold script. fold (api_key ps). by rewrite Hkey.
  - intros Hkey Hin. unfold script, main. fold (api_key ps). by rewrite Hkey, Hin.
  - intros e Hkey Hin Hout He. unfold script, main. fold (api_key ps).
    rewrite Hkey, Hin. cbn [negb].
    rewrite (process_pdf_aborts _ _ _ _ e) by done.
    unfold print, emit, emit_all; cbn [files trace]. by rewrite <- !app_assoc.
Qed.

Lemma fatal_errors_witness :
  script Sample.undecodable Sample.ps Sample.w0 =
    (0%Z, emit_all [Print "[INFO] Processing scan.pdf -> scan.md";
                    Print "[PDF] Processing: scan";
                    ConvertFromPath "scan.pdf" 200 (Raises Sample.corrupt);
                    Print "[ERROR] Converting PDF to images: Unable to get page count."] Sample.w0)
  /\ fst (script Sample.lib
            {| environ := empty; args_file := "scan.pdf"; args_output := "scan.md" |} Sample.w0) = 1%Z
  /\ fst (script Sample.lib
            {| environ := environ Sample.ps; args_file := "lost.pdf"; args_output := "scan.md" |}
            Sample.w0) = 1%Z.
Proof.
  split; [|split].
  - destruct (fatal_errors_are_reported Sample.undecodable Sample.ps Sample.w0) as (_ & _ & H).
    by apply (H Sample.corrupt).
  - destruct (fatal_errors_are_reported Sample.lib
                {| environ := empty; args_file := "scan.pdf"; args_output := "scan.md" |} Sample.w0)
      as (H & _).
    by rewrite H.
  - destruct (fatal_errors_are_reported Sample.lib
                {| environ := environ Sample.ps; args_file := "lost.pdf"; args_output := "scan.md" |}
                Sample.w0) as (_ & H & _).
    by rewrite H.
Defined.

(** ** Page images in memory *)

Lemma held_at_page_events held evs :
  Forall page_event evs -> held_at_calls held evs = replicate (model_calls evs) held.
Proof.
  induction 1 as [|ev evs Hev _ IH]; [done|].
  destruct ev; cbn [held_at_calls model_calls replicate]; try done.
  by rewrite IH.
Qed.

(** C9 as stated fails: on the two-page sample every model call is made
    while both page images are held. *)
Lemma sample_pages_are_held_together :
  held_at_calls 0 (trace (snd (process_pdf Sample.lib "scan.pdf" "scan.md" Sample.w0))) = [2; 2; 2; 2]
  /\ ~ one_page_at_a_time (trace (snd (process_pdf Sample.lib "scan.pdf" "scan.md" Sample.w0))).
Proof.
  assert (H : held_at_calls 0 (trace (snd (process_pdf Sample.lib "scan.pdf" "scan.md" Sample.w0)))
              = [2; 2; 2; 2]) by reflexivity.
  split; [exact H|].
  unfold one_page_at_a_time. rewrite H. intros Hall.
  apply Forall_cons in Hall as [Hle _]. lia.
Qed.

(** C9, amended: the page source is called once, before any model call,
    and hands back the whole list of page images; no other call of it
    follows.  The pages are then taken one at a time in order (one to
    three model calls in a row on each image), and every model call of
    the run is made while all [N] images are held. *)
Theorem page_images_are_converted_up_front lib pdf_path output_path w images :
  path_exists output_path w = false ->
  convert_from_path lib pdf_path 200 = Returns images ->
  exists evs,
    trace (snd (process_pdf lib pdf_path output_path w)) =
      trace w ++ Print (processing_line lib pdf_path)
              :: ConvertFromPath pdf_path 200 (Returns images) :: evs
    /\ Forall page_event evs
    /\ one_by_one images (called_images evs)
    /\ held_at_calls 0 (Print (processing_line lib pdf_path)
                        :: ConvertFromPath pdf_path 200 (Returns images) :: evs)
       = replicate (model_calls evs) (length images).
Proof.
  intros H Himgs.
  destruct (process_pdf_runs lib pdf_path output_path w images H Himgs)
    as (results & evs & -> & _ & Hev & _ & Hone).
  exists evs. cbn [snd trace]. split; [done|]. split; [done|]. split; [done|].
  cbn [held_at_calls]. by apply held_at_page_events.
Qed.

Lemma page_images_witness :
  exists evs,
    trace (snd (process_pdf Sample.lib "scan.pdf" "scan.md" Sample.w0)) =
      Print "[PDF] Processing: scan"
      :: ConvertFromPath "scan.pdf" 200 (Returns [Image 1; Image 2]) :: evs
    /\ held_at_calls 0 (Print "[PDF] Processing: scan"
                        :: ConvertFromPath "scan.pdf" 200 (Returns [Image 1; Image 2]) :: evs)
       = replicate (model_calls evs) 2.
Proof.
  destruct (page_images_are_converted_up_front Sample.lib "scan.pdf" "scan.md" Sample.w0
              [Image 1; Image 2] eq_refl eq_refl) as (evs & Htrace & _ & _ & Hheld).
  exists evs. split; [exact Htrace | exact Hheld].
Defined.

(** ** Further properties of the pipeline *)

(** X2: whatever the model does, a page costs between one and three model
    calls, changes no file, and ends in a string that is either a text
    read from a response the model returned for the image, or the
    fallback comment for an error that made an attempt on the image
    fail: an error the call raised, or one that reading the text of its
    response raised. *)
Theorem page_failure_is_absorbed lib img page_num w :
  exists r w',
    process_page_vision lib img page_num w = (Some r, w')
    /\ page_result lib img page_num r
    /\ files w' = files w
    /\ model_calls (trace w) + 1 <= model_calls (trace w') <= model_calls (trace w) + max_retries.
Proof.
  destruct (process_page_vision_returns lib img page_num w) as (r & evs & Hrun & Hres & _ & Hcalls).
  exists r, (emit_all evs w). split; [done|]. split; [done|]. split; [done|].
  unfold emit_all; cbn [trace]. rewrite model_calls_app. lia.
Qed.

(** X3: a one-page document on which the model always raises the same
    rate-limit error: three model calls with a 30-second sleep after the
    first and after the second, then the fallback comment for page 1
    under its marker in the artifact. *)
Theorem rate_limited_page_degrades lib pdf_path output_path w img e :
  path_exists output_path w = false ->
  convert_from_path lib pdf_path 200 = Returns [img] ->
  (forall k, generate_content lib k img = Raises e) ->
  rate_limit_signal (exc_str e) ->
  exists w',
    process_pdf lib pdf_path output_path w = (Returned, w')
    /\ files w' !! output_path
       = Some (artifact (path_stem lib pdf_path)
                 ["<!-- Error processing page 1: " +:+ exc_str e +:+ " -->"])
    /\ model_calls (trace w') = model_calls (trace w) + 3
    /\ sleeps (trace w') = sleeps (trace w) ++ [30; 30; 1 # 2]%Q.
Proof.
  intros H Hc Hraise Hsig. apply rate_limit_hit_spec in Hsig.
  unfold process_pdf. rewrite H, Hc. cbn [pages].
  unfold process_page_vision. cbn [seq max_retries].
  rewrite (attempts_retry _ _ _ _ _ _ e) by (done || (unfold max_retries; lia)).
  rewrite (attempts_retry _ _ _ _ _ _ e) by (done || (unfold max_retries; lia)).
  rewrite (attempts_give_up _ _ _ _ _ _ e) by (done || (unfold max_retries; lia)).
  eexists; split; [reflexivity|].
  unfold emit, append_file, write_file, print, emit_all, emit; cbn [files trace].
  rewrite !retried_trace. cbn [trace].
  unfold error_events, chosen_delay. rewrite Hsig.
  split; [|split].
  - rewrite !retried_files. cbn [files]. change (0 + 1) with 1.
    rewrite !lookup_insert_eq. cbn [default]. f_equal.
    unfold artifact, fallback_marker, id. cbn [page_blocks]. rewrite !append_assoc. reflexivity.
  - rewrite !model_calls_app. cbn. lia.
  - rewrite !sleeps_app. cbn [sleeps app]. rewrite ?app_nil_r, <- ?app_assoc. reflexivity.
Qed.

Lemma rate_limited_page_witness :
  exists w',
    process_pdf {| path_name := path_name Sample.lib; path_stem := path_stem Sample.lib;
                   convert_from_path := fun _ _ => Returns [Image 7];
                   generate_content := fun _ _ => Raises Sample.quota |}
                "scan.pdf" "scan.md" Sample.w0 = (Returned, w')
    /\ files w' !! "scan.md"
       = Some ("<!-- Source: scan -->" +:+ nl +:+ nl +:+ nl +:+ "<!-- Page 1 -->" +:+ nl
               +:+ "<!-- Error processing page 1: 429 Resource exhausted -->" +:+ nl)
    /\ sleeps (trace w') = [30; 30; 1 # 2]%Q.
Proof.
  destruct (rate_limited_page_degrades
              {| path_name := path_name Sample.lib; path_stem := path_stem Sample.lib;
                 convert_from_path := fun _ _ => Returns [Image 7];
                 generate_content := fun _ _ => Raises Sample.quota |}
              "scan.pdf" "scan.md" Sample.w0 (Image 7) Sample.quota)
    as (w' & Hrun & Hfile & _ & Hsleeps);
    [reflexivity | reflexivity | reflexivity | apply rate_limit_hit_spec; reflexivity |].
  exists w'. split; [exact Hrun|]. split; [exact Hfile | exact Hsleeps].
Defined.

(** ** Sleeping *)

Lemma chosen_delay_first e : chosen_delay 0 e = 5 \/ chosen_delay 0 e = 30.
Proof. unfold chosen_delay. destruct (rate_limit_hit e); [by right | by left]. Qed.

Lemma chosen_delay_second e : chosen_delay 1 e = 10 \/ chosen_delay 1 e = 30.
Proof. unfold chosen_delay. destruct (rate_limit_hit e); [by right | by left]. Qed.

Lemma sleeps_error_events page_num attempt e :
  sleeps (error_events page_num attempt e) = [].
Proof. unfold error_events. by destruct (rate_limit_hit e). Qed.

Lemma retried_sleeps img page_num attempt e w :
  sleeps (trace (retried img page_num attempt e w)) =
  sleeps (trace w) ++ [secs (chosen_delay attempt e)].
Proof.
  rewrite retried_trace, sleeps_app. cbn [sleeps].
  by rewrite sleeps_app, sleeps_error_events.
Qed.

Lemma returned_sleeps img resp page_num :
  sleeps (GenerateContent img (Returns resp)
          :: match blocked resp with
             | Some reason => [Print (blocked_warning page_num reason)]
             | None => []
             end) = [].
Proof. by destruct (blocked resp). Qed.

Lemma failed_sleeps lib img page_num attempt e w w0 :
  sleeps (trace (failed (try_events lib img page_num w0) page_num attempt e w)) =
  sleeps (trace w) ++ [secs (chosen_delay attempt e)].
Proof.
  rewrite failed_trace, !sleeps_app. cbn [sleeps].
  by rewrite try_events_sleeps, sleeps_error_events.
Qed.

(** The sleeps of one page, whatever the model does. *)
Lemma process_page_vision_sleeps lib img page_num w :
  exists ds,
    sleeps (trace (snd (process_page_vision lib img page_num w))) = sleeps (trace w) ++ map secs ds
    /\ retry_waits ds.
Proof.
  unfold process_page_vision. cbn [seq max_retries].
  rewrite attempts_step. destruct (try_result lib img w) as [t|e0].
  { exists []. split; [|by left].
    cbn [snd emit_all trace map]. by rewrite sleeps_app, try_events_sleeps. }
  replace (0 <? max_retries - 1)%nat with true by done.
  set (w1 := failed (try_events lib img page_num w) page_num 0 e0 w).
  assert (Hs1 : sleeps (trace w1) = sleeps (trace w) ++ [secs (chosen_delay 0 e0)])
    by apply failed_sleeps.
  rewrite attempts_step. destruct (try_result lib img w1) as [t|e1].
  { exists [chosen_delay 0 e0]. split.
    - cbn [snd emit_all trace map]. by rewrite sleeps_app, try_events_sleeps, app_nil_r.
    - right; left. eexists; split; [done | apply chosen_delay_first]. }
  replace (1 <? max_retries - 1)%nat with true by done.
  set (w2 := failed (try_events lib img page_num w1) page_num 1 e1 w1).
  assert (Hs2 : sleeps (trace w2)
                = sleeps (trace w) ++ [secs (chosen_delay 0 e0); secs (chosen_delay 1 e1)]).
  { unfold w2. rewrite failed_sleeps, Hs1. by rewrite <- app_assoc. }
  exists [chosen_delay 0 e0; chosen_delay 1 e1]. split.
  - rewrite attempts_step. destruct (try_result lib img w2) as [t|e2].
    + cbn [snd emit_all trace map]. by rewrite sleeps_app, try_events_sleeps, app_nil_r.
    + replace (2 <? max_retries - 1)%nat with false by done.
      cbn [snd emit_all trace map]. rewrite !sleeps_app.
      by rewrite try_events_sleeps, sleeps_error_events, app_nil_r.
  - right; right. eexists _, _; split; [done|].
    split; [apply chosen_delay_first | apply chosen_delay_second].
Qed.

Lemma pages_sleeps lib output_path images : forall i w,
  exists waits,
    sleeps (trace (snd (pages lib output_path i images w))) = sleeps (trace w) ++ paced waits
    /\ length waits = length images
    /\ Forall retry_waits waits.
Proof.
  induction images as [|img images IH]; intros i w.
  - exists []. cbn [pages snd paced map concat]. by rewrite app_nil_r.
  - cbn [pages].
    destruct (process_page_vision_sleeps lib img (i + 1) w) as (ds & Hds & Hwaits).
    destruct (process_page_vision_returns lib img (i + 1) w) as (r & evs & Hrun & _).
    rewrite Hrun in Hds |- *. cbn [snd] in Hds.
    set (w1 := emit (Sleep (1 # 2)) _).
    assert (Hs1 : sleeps (trace w1) = sleeps (trace w) ++ map secs ds ++ [1 # 2]%Q).
    { unfold w1, emit, append_file; cbn [trace]. rewrite sleeps_app, Hds. cbn [sleeps].
      by rewrite <- app_assoc. }
    destruct (IH (i + 1) w1) as (waits & Hrest & Hlen & Hall).
    exists (ds :: waits). split; [|split; [cbn [length]; congruence | by constructor]].
    rewrite Hrest, Hs1. unfold paced. cbn [map concat]. by rewrite <- !app_assoc.
Qed.

(** X4: the sleeps of a run over [N] pages go page by page: at most two
    backoff sleeps (5 or 30 seconds after the first attempt, 10 or 30
    after the second), then one pacing sleep of half a second, after a
    page that succeeded and after a page that fell back alike, the last
    page included. *)
Theorem every_page_is_paced lib pdf_path output_path w images :
  path_exists output_path w = false ->
  convert_from_path lib pdf_path 200 = Returns images ->
  exists waits,
    sleeps (trace (snd (process_pdf lib pdf_path output_path w))) = sleeps (trace w) ++ paced waits
    /\ length waits = length images
    /\ Forall retry_waits waits.
Proof.
  intros H Himgs. unfold process_pdf. rewrite H, Himgs.
  set (w1 := write_file _ _ _).
  destruct (pages_sleeps lib output_path images 0 w1) as (waits & Hs & Hlen & Hall).
  exists waits. split; [|done]. rewrite Hs. f_equal.
  unfold w1, write_file, print, emit; cbn [trace]. rewrite !sleeps_app. cbn [sleeps].
  by rewrite !app_nil_r.
Qed.

Lemma every_page_is_paced_witness :
  exists waits,
    sleeps (trace (snd (process_pdf Sample.lib "scan.pdf" "scan.md" Sample.w0))) = paced waits
    /\ length waits = 2.
Proof.
  destruct (every_page_is_paced Sample.lib "scan.pdf" "scan.md" Sample.w0 [Image 1; Image 2]
              eq_refl eq_refl) as (waits & Hs & Hlen & _).
  exists waits. split; [exact Hs | exact Hlen].
Defined.

Lemma total_sleep_app (a b : list Q) :
  (total_sleep (a ++ b) == total_sleep a + total_sleep b)%Q.
Proof.
  induction a as [|q a IH]; cbn [app total_sleep fold_right].
  - by rewrite Qplus_0_l.
  - fold (total_sleep (a ++ b)) (total_sleep a). rewrite IH. apply Qplus_assoc.
Qed.

Lemma retry_waits_total ds :
  retry_waits ds -> (total_sleep (map secs ds) <= 60)%Q.
Proof.
  intros [->|[(d0 & -> & H0)|(d0 & d1 & -> & H0 & H1)]].
  - done.
  - by destruct H0 as [->| ->].
  - by destruct H0 as [->| ->], H1 as [->| ->].
Qed.

Lemma paced_total waits :
  Forall retry_waits waits ->
  ((1 # 2) * inject_Z (Z.of_nat (length waits)) <= total_sleep (paced waits)
   /\ total_sleep (paced waits) <= (121 # 2) * inject_Z (Z.of_nat (length waits)))%Q.
Proof.
  induction 1 as [|ds waits Hds _ IH]; [done|].
  unfold paced. cbn [map concat length]. fold (paced waits).
  rewrite !total_sleep_app. cbn [total_sleep fold_right].
  rewrite Nat2Z.inj_succ, <- Z.add_1_r, inject_Z_plus.
  apply retry_waits_total in Hds.
  assert (H0 : (0 <= total_sleep (map secs ds))%Q).
  { clear. induction ds as [|d ds IH]; [done|]. cbn [map total_sleep fold_right].
    fold (total_sleep (map secs ds)).
    apply (Qplus_le_compat 0 (secs d) 0); [|done].
    unfold secs, Qle; simpl. lia. }
  destruct IH as [IHl IHu]. change (inject_Z 1) with 1%Q. split; lra.
Qed.

(** X5: a run over [N] pages sleeps at least [N] half seconds and at
    most [60.5 * N] seconds in all: the pacing sleep after every page,
    and at most 30 + 30 seconds of backoff on a page. *)
Theorem run_sleeps_within_bounds lib pdf_path output_path w images :
  path_exists output_path w = false ->
  convert_from_path lib pdf_path 200 = Returns images ->
  exists slept,
    sleeps (trace (snd (process_pdf lib pdf_path output_path w))) = sleeps (trace w) ++ slept
    /\ ((1 # 2) * inject_Z (Z.of_nat (length images)) <= total_sleep slept)%Q
    /\ (total_sleep slept <= (121 # 2) * inject_Z (Z.of_nat (length images)))%Q.
Proof.
  intros H Himgs. unfold process_pdf. rewrite H, Himgs.
  set (w1 := write_file _ _ _).
  destruct (pages_sleeps lib output_path images 0 w1) as (waits & Hs & Hlen & Hall).
  exists (paced waits). rewrite <- Hlen. split; [|by apply paced_total].
  rewrite Hs. f_equal.
  unfold w1, write_file, print, emit; cbn [trace]. rewrite !sleeps_app. cbn [sleeps].
  by rewrite !app_nil_r.
Qed.

Lemma run_sleeps_witness :
  exists slept,
    sleeps (trace (snd (process_pdf Sample.lib "scan.pdf" "scan.md" Sample.w0))) = slept
    /\ (1 <= total_sleep slept)%Q
    /\ (total_sleep slept <= 121)%Q.
Proof.
  destruct (run_sleeps_within_bounds Sample.lib "scan.pdf" "scan.md" Sample.w0 [Image 1; Image 2]
              eq_refl eq_refl) as (slept & Hs & Hlow & Hup).
  exists slept. split; [exact Hs|]. split.
  - eapply Qle_trans; [|exact Hlow]. unfold Qle; simpl; lia.
  - eapply Qle_trans; [exact Hup|]. unfold Qle; simpl; lia.
Defined.

(** ** The entry point *)

Lemma process_pdf_completes lib pdf_path output_path w :
  exists w', process_pdf lib pdf_path output_path w = (Returned, w').
Proof.
  destruct (path_exists output_path w) eqn:H.
  - rewrite process_pdf_skips by done. eauto.
  - destruct (convert_from_path lib pdf_path 200) as [images|e] eqn:Hc.
    + destruct (process_pdf_runs lib pdf_path output_path w images H Hc) as (? & ? & -> & _). eauto.
    + rewrite (process_pdf_aborts _ _ _ _ e) by done. eauto.
Qed.

Lemma py_not_unset ps :
  py_not (api_key ps) = true <-> unset ps "GEMINI_API_KEY" /\ unset ps "GOOGLE_API_KEY".
Proof.
  unfold api_key, py_or, py_not, unset.
  destruct (environ ps !! "GEMINI_API_KEY") as [[|c s]|];
    destruct (environ ps !! "GOOGLE_API_KEY") as [[|c' s']|];
    split; try done; try (intros _; split; by eauto);
    intros [[?|?] [?|?]]; done.
Qed.

(** X6: the startup check fails exactly when neither [GEMINI_API_KEY]
    nor [GOOGLE_API_KEY] holds a non-empty value: an empty
    [GEMINI_API_KEY] does not hide a [GOOGLE_API_KEY] that is set, and
    an empty value counts as none.  When it fails the script prints its
    error line and exits with status 1 before [main] runs; otherwise the
    script is [main] and its exit status. *)
Theorem credential_is_first_nonempty lib ps w :
  (unset ps "GEMINI_API_KEY" /\ unset ps "GOOGLE_API_KEY" ->
   script lib ps w =
   (1%Z, emit_all [Print "[ERROR] GEMINI_API_KEY or GOOGLE_API_KEY not found in environment."] w))
  /\ (~ (unset ps "GEMINI_API_KEY" /\ unset ps "GOOGLE_API_KEY") ->
      script lib ps w = (exit_status (fst (main lib ps w)), snd (main lib ps w))).
Proof.
  split; intros H.
  - apply py_not_unset in H. unfold script. fold (api_key ps). by rewrite H.
  - assert (Hkey : py_not (api_key ps) = false).
    { destruct (py_not (api_key ps)) eqn:Hkey; [|done]. by apply py_not_unset in Hkey. }
    unfold script. fold (api_key ps). rewrite Hkey.
    by destruct (main lib ps w) as [[| |] ?].
Qed.

Lemma credential_witness :
  fst (script Sample.lib
         {| environ := {[ "GEMINI_API_KEY" := "" ]}; args_file := "scan.pdf"; args_output := "scan.md" |}
         Sample.w0) = 1%Z
  /\ fst (script Sample.lib
            {| environ := {[ "GEMINI_API_KEY" := ""; "GOOGLE_API_KEY" := "g" ]};
               args_file := "scan.pdf"; args_output := "scan.md" |}
            Sample.w0) = 0%Z.
Proof.
  split.
  - destruct (credential_is_first_nonempty Sample.lib
                {| environ := {[ "GEMINI_API_KEY" := "" ]};
                   args_file := "scan.pdf"; args_output := "scan.md" |} Sample.w0) as [H _].
    rewrite H; [reflexivity|]. split; [by right | by left].
  - destruct (credential_is_first_nonempty Sample.lib
                {| environ := {[ "GEMINI_API_KEY" := ""; "GOOGLE_API_KEY" := "g" ]};
                   args_file := "scan.pdf"; args_output := "scan.md" |} Sample.w0) as [_ H].
    rewrite H; [reflexivity|]. intros [_ [?|?]]; discriminate.
Defined.

(** X8: a run never changes a file that is already there, and the only
    path it can create is its output path: every other path reads after
    the run as it did before, and so does the output path when it
    existed. *)
Theorem existing_files_are_kept lib pdf_path output_path w p :
  (p <> output_path \/ path_exists p w = true) ->
  files (snd (process_pdf lib pdf_path output_path w)) !! p = files w !! p.
Proof.
  intros Hp.
  destruct (path_exists output_path w) eqn:H.
  - by rewrite process_pdf_skips.
  - assert (Hne : p <> output_path).
    { destruct Hp as [?|Hp]; [done|]. intros ->. congruence. }
    destruct (convert_from_path lib pdf_path 200) as [images|e] eqn:Hc.
    + destruct (process_pdf_runs lib pdf_path output_path w images H Hc) as (? & ? & -> & _).
      cbn [snd files]. by rewrite lookup_insert_ne.
    + by rewrite (process_pdf_aborts _ _ _ _ e).
Qed.

Lemma existing_files_witness :
  files (snd (process_pdf Sample.lib "scan.pdf" "scan.md" Sample.w0)) !! "scan.pdf" = Some "%PDF"
  /\ files (snd (process_pdf Sample.lib "scan.pdf" "scan.pdf" Sample.w0)) !! "scan.pdf" = Some "%PDF".
Proof.
  split.
  - rewrite (existing_files_are_kept Sample.lib "scan.pdf" "scan.md" Sample.w0 "scan.pdf");
      [reflexivity | left; discriminate].
  - rewrite (existing_files_are_kept Sample.lib "scan.pdf" "scan.pdf" Sample.w0 "scan.pdf");
      [reflexivity | right; reflexivity].
Defined.

(** ** The page loop as a whole *)

(** X9: a run over [N] pages makes at least [N] and at most [3 * N]
    model calls, and does not call the page source again. *)
Theorem run_calls_model_within_bounds lib pdf_path output_path w images :
  path_exists output_path w = false ->
  convert_from_path lib pdf_path 200 = Returns images ->
  model_calls (trace w) + length images
    <= model_calls (trace (snd (process_pdf lib pdf_path output_path w)))
    <= model_calls (trace w) + 3 * length images.
Proof.
  intros H Himgs.
  destruct (process_pdf_runs lib pdf_path output_path w images H Himgs)
    as (results & evs & -> & _ & _ & Hcalls & _).
  cbn [snd trace]. rewrite model_calls_app. cbn [model_calls].
  unfold max_retries in Hcalls. lia.
Qed.

Lemma run_calls_model_witness :
  2 <= model_calls (trace (snd (process_pdf Sample.lib "scan.pdf" "scan.md" Sample.w0))) <= 6.
Proof.
  apply (run_calls_model_within_bounds Sample.lib "scan.pdf" "scan.md" Sample.w0
           [Image 1; Image 2]); reflexivity.
Defined.

(** X10: a document that converts to no page at all still leaves an
    artifact, the header line and the blank line alone, without any
    model call or sleep; from then on the job counts as done, and a
    later run is skipped whatever the document converts to by then. *)
Theorem empty_document_leaves_a_header lib lib' pdf_path output_path w :
  path_exists output_path w = false ->
  convert_from_path lib pdf_path 200 = Returns [] ->
  exists w',
    process_pdf lib pdf_path output_path w = (Returned, w')
    /\ files w' = <[output_path := "<!-- Source: " +:+ path_stem lib pdf_path +:+ " -->" +:+ nl +:+ nl]>
                    (files w)
    /\ trace w' = trace w ++ [Print (processing_line lib pdf_path);
                              ConvertFromPath pdf_path 200 (Returns [])]
    /\ process_pdf lib' pdf_path output_path w' =
       (Returned, {| files := files w'; trace := trace w' ++ [Print (skip_line lib' pdf_path)] |}).
Proof.
  intros H Hc. unfold process_pdf at 1. rewrite H, Hc. cbn [pages].
  eexists. split; [reflexivity|].
  unfold write_file, print, emit; cbn [files trace].
  split; [done|]. split; [by rewrite <- app_assoc|].
  apply process_pdf_skips. apply path_exists_true. cbn [files].
  rewrite lookup_insert_eq. eauto.
Qed.

Lemma empty_document_witness :
  files (snd (process_pdf
                {| path_name := path_name Sample.lib; path_stem := path_stem Sample.lib;
                   convert_from_path := fun _ _ => Returns [];
                   generate_content := generate_content Sample.lib |}
                "scan.pdf" "scan.md" Sample.w0)) !! "scan.md"
  = Some ("<!-- Source: scan -->" +:+ nl +:+ nl).
Proof.
  destruct (empty_document_leaves_a_header
              {| path_name := path_name Sample.lib; path_stem := path_stem Sample.lib;
                 convert_from_path := fun _ _ => Returns [];
                 generate_content := generate_content Sample.lib |}
              Sample.lib "scan.pdf" "scan.md" Sample.w0 eq_refl eq_refl)
    as (w' & -> & Hfiles & _).
  cbn [snd]. rewrite Hfiles. reflexivity.
Defined.

Lemma pages_app lib output_path a b : forall i w,
  pages lib output_path i (a ++ b) w =
  match pages lib output_path i a w with
  | (Returned, w1) => pages lib output_path (i + length a) b w1
  | other => other
  end.
Proof.
  induction a as [|img a IH]; intros i w.
  - cbn [app pages length]. by rewrite Nat.add_0_r.
  - cbn [app pages length].
    destruct (process_page_vision lib img (i + 1) w) as [[r|] w'].
    + rewrite IH. by replace (i + 1 + length a) with (i + S (length a)) by lia.
    + done.
Qed.

(** X11: the loop only ever appends to the artifact.  The state it is
    in after the first pages of a document is the state from which the
    remaining pages are processed, and what the artifact holds at that
    point is a prefix of what it holds at the end. *)
Theorem artifact_grows_by_appending lib output_path a b i w content :
  files w !! output_path = Some content ->
  exists w1 mid tail,
    pages lib output_path i a w = (Returned, w1)
    /\ pages lib output_path i (a ++ b) w = pages lib output_path (i + length a) b w1
    /\ files w1 !! output_path = Some (content +:+ mid)
    /\ files (snd (pages lib output_path i (a ++ b) w)) !! output_path
       = Some (content +:+ mid +:+ tail).
Proof.
  intros Hfile. rewrite pages_app.
  destruct (pages_spec lib output_path a i w content Hfile) as (ra & evs & -> & _).
  set (w1 := {| files := _; trace := _ |}).
  assert (H1 : files w1 !! output_path = Some (content +:+ page_blocks (i + 1) ra))
    by apply lookup_insert_eq.
  destruct (pages_spec lib output_path b (i + length a) w1 _ H1) as (rb & evs' & Hb & _).
  exists w1, (page_blocks (i + 1) ra), (page_blocks (i + length a + 1) rb).
  split; [done|]. split; [done|]. split; [done|].
  rewrite Hb. cbn [snd files]. rewrite lookup_insert_eq. by rewrite append_assoc.
Qed.

Lemma artifact_grows_witness :
  exists w1 mid tail,
    pages Sample.lib "scan.md" 0 [Image 1] {| files := {[ "scan.md" := "head" ]}; trace := [] |}
      = (Returned, w1)
    /\ files w1 !! "scan.md" = Some ("head" +:+ mid)
    /\ files (snd (pages Sample.lib "scan.md" 0 [Image 1; Image 2]
                     {| files := {[ "scan.md" := "head" ]}; trace := [] |})) !! "scan.md"
       = Some ("head" +:+ mid +:+ tail).
Proof.
  destruct (artifact_grows_by_appending Sample.lib "scan.md" [Image 1] [Image 2] 0
              {| files := {[ "scan.md" := "head" ]}; trace := [] |} "head"
              (lookup_singleton_eq "scan.md" "head"))
    as (w1 & mid & tail & Ha & _ & Hmid & Hend).
  exists w1, mid, tail. split; [exact Ha|]. split; [exact Hmid | exact Hend].
Defined.

Lemma fails_with_try lib img w e :
  fails_with lib (model_calls (trace w)) img e -> try_result lib img w = Raises e.
Proof.
  unfold try_result. intros [H|(resp & H & Ht)]; by rewrite H.
Qed.

(** X12: the first response whose text can be read ends the work on a
    page.  If the first [k] attempts fail ([k] at most 2), the call
    raising or the text of its response not being readable, and the
    next call returns a response with a readable text,
    [process_page_vision] returns that text after exactly [k + 1] model
    calls and [k] backoff sleeps, without touching a file: it never
    calls the model again after such a response. *)
Theorem first_readable_response_ends_the_retries lib img page_num w k resp page_text :
  k < max_retries ->
  (forall j, j < k -> exists e, fails_with lib (model_calls (trace w) + j) img e) ->
  generate_content lib (model_calls (trace w) + k) img = Returns resp ->
  text resp = Returns page_text ->
  exists w',
    process_page_vision lib img page_num w = (Some page_text, w')
    /\ model_calls (trace w') = model_calls (trace w) + k + 1
    /\ length (sleeps (trace w')) = length (sleeps (trace w)) + k
    /\ files w' = files w.
Proof.
  intros Hk Hfail Hok Ht. unfold process_page_vision. cbn [seq max_retries].
  unfold max_retries in Hk.
  assert (Hread : forall w0, model_calls (trace w0) = model_calls (trace w) + k ->
                             try_result lib img w0 = Returns page_text).
  { intros w0 Hw0. unfold try_result. by rewrite Hw0, Hok, Ht. }
  destruct k as [|[|[|k]]]; [| | |lia].
  - rewrite attempts_step, Hread by lia.
    eexists; split; [reflexivity|]. cbn [emit_all trace files].
    rewrite model_calls_app, sleeps_app, try_events_calls, try_events_sleeps, length_app.
    cbn [length]. split; [lia|split; [lia|done]].
  - destruct (Hfail 0) as [e0 H0]; [lia|]. rewrite Nat.add_0_r in H0.
    rewrite attempts_step, (fails_with_try _ _ _ _ H0).
    replace (0 <? max_retries - 1)%nat with true by done.
    rewrite attempts_step, Hread by (rewrite failed_calls, try_events_calls; lia).
    eexists; split; [reflexivity|]. cbn [emit_all trace files].
    rewrite model_calls_app, sleeps_app, try_events_calls, try_events_sleeps, length_app.
    rewrite failed_calls, failed_sleeps, try_events_calls, length_app.
    cbn [length]. split; [lia|split; [lia|done]].
  - destruct (Hfail 0) as [e0 H0]; [lia|]. rewrite Nat.add_0_r in H0.
    destruct (Hfail 1) as [e1 H1]; [lia|].
    rewrite attempts_step, (fails_with_try _ _ _ _ H0).
    replace (0 <? max_retries - 1)%nat with true by done.
    set (w1 := failed (try_events lib img page_num w) page_num 0 e0 w).
    assert (Hc1 : model_calls (trace w1) = model_calls (trace w) + 1)
      by (unfold w1; by rewrite failed_calls, try_events_calls).
    rewrite <- Hc1 in H1.
    rewrite attempts_step, (fails_with_try _ _ _ _ H1).
    replace (1 <? max_retries - 1)%nat with true by done.
    rewrite attempts_step, Hread by (rewrite failed_calls, try_events_calls; lia).
    eexists; split; [reflexivity|]. cbn [emit_all trace files].
    rewrite model_calls_app, sleeps_app, try_events_calls, try_events_sleeps, length_app.
    rewrite failed_calls, failed_sleeps, try_events_calls, length_app.
    unfold w1. rewrite failed_calls, failed_sleeps, try_events_calls, length_app.
    cbn [length]. split; [lia|split; [lia|done]].
Qed.

Lemma first_readable_response_witness :
  exists w',
    process_page_vision
      (Sample.with_model (fun k _ => match k with
                                     | 0 => Returns Sample.refused
                                     | 1 => Raises Sample.quota
                                     | _ => Returns (Sample.ok "<div>hello</div>")
                                     end))
      (Image 1) 1 Sample.w0 = (Some "<div>hello</div>", w')
    /\ model_calls (trace w') = 3
    /\ length (sleeps (trace w')) = 2.
Proof.
  destruct (first_readable_response_ends_the_retries
              (Sample.with_model (fun k _ => match k with
                                             | 0 => Returns Sample.refused
                                             | 1 => Raises Sample.quota
                                             | _ => Returns (Sample.ok "<div>hello</div>")
                                             end))
              (Image 1) 1 Sample.w0 2 (Sample.ok "<div>hello</div>") "<div>hello</div>")
    as (w' & Hrun & Hcalls & Hsleeps & _).
  - unfold max_retries. lia.
  - intros [|[|j]] Hj; [|by exists Sample.quota; left|lia].
    exists Sample.no_text. right. by exists Sample.refused.
  - reflexivity.
  - reflexivity.
  - exists w'. split; [exact Hrun|]. split; [exact Hcalls | exact Hsleeps].
Defined.

(** ** Slugs *)

Lemma is_hyphen_eq c : is_hyphen c = true <-> c = "-"%char.
Proof. unfold is_hyphen. apply Ascii.eqb_eq. Qed.

Lemma slug_char_facts c :
  slug_char c = true ->
  is_whitespace c = false /\ to_lower c = c /\ underscore_to_hyphen c = c.
Proof. destruct c as [[] [] [] [] [] [] [] []]; intros H; try discriminate H; done. Qed.

Lemma lstrip_first drop s : first_kept drop (lstrip drop s).
Proof.
  induction s as [|c s IH]; [done|]. cbn [lstrip].
  destruct (drop c) eqn:Hc; [done|]. exact Hc.
Qed.

Lemma rstrip_cons drop c s k ks :
  rstrip drop (String c s) = String k ks -> k = c.
Proof.
  cbn [rstrip]. destruct (rstrip drop s); [destruct (drop c)|]; congruence.
Qed.

Lemma rstrip_last drop s : last_kept drop (rstrip drop s).
Proof.
  induction s as [|c s IH]; [done|]. cbn [rstrip].
  destruct (rstrip drop s) as [|k ks] eqn:E.
  - destruct (drop c) eqn:Hc; [done|]. exact Hc.
  - exact IH.
Qed.

Lemma rstrip_first drop s : first_kept drop s -> first_kept drop (rstrip drop s).
Proof.
  destruct s as [|c s]; [done|]. cbn [rstrip first_kept]. intros Hc.
  destruct (rstrip drop s); [by rewrite Hc|done].
Qed.

Lemma lstrip_all p drop s : all_chars p s = true -> all_chars p (lstrip drop s) = true.
Proof.
  induction s as [|c s IH]; [done|]. cbn [all_chars lstrip].
  intros [Hc Hs]%andb_true_iff. destruct (drop c); [by apply IH|].
  cbn [all_chars]. by rewrite Hc, Hs.
Qed.

Lemma rstrip_all p drop s : all_chars p s = true -> all_chars p (rstrip drop s) = true.
Proof.
  induction s as [|c s IH]; [done|]. cbn [all_chars rstrip].
  intros [Hc Hs]%andb_true_iff. specialize (IH Hs).
  destruct (rstrip drop s); [destruct (drop c)|]; cbn [all_chars] in *; by rewrite ?Hc, ?IH.
Qed.

Lemma lstrip_no_double drop s : no_double_hyphen s -> no_double_hyphen (lstrip drop s).
Proof.
  induction s as [|c s IH]; [done|]. intros H. cbn [lstrip].
  destruct (drop c); [|done]. apply IH. by destruct H.
Qed.

Lemma rstrip_no_double drop s : no_double_hyphen s -> no_double_hyphen (rstrip drop s).
Proof.
  induction s as [|c s IH]; [done|]. intros [Hhead Hs]. specialize (IH Hs).
  cbn [rstrip]. destruct (rstrip drop s) as [|k ks] eqn:E.
  - by destruct (drop c).
  - split; [|done]. destruct s as [|c' s']; [done|].
    by rewrite (rstrip_cons _ _ _ _ _ E).
Qed.

Lemma squeeze_cons c s : exists rest, squeeze_hyphens (String c s) = String c rest.
Proof.
  revert c; induction s as [|c' s IH]; intros c; [by eexists|].
  cbn [squeeze_hyphens]. destruct (is_hyphen c && is_hyphen c') eqn:H; [|by eexists].
  apply andb_true_iff in H as [->%is_hyphen_eq ->%is_hyphen_eq]. apply IH.
Qed.

Lemma squeeze_all p s : all_chars p s = true -> all_chars p (squeeze_hyphens s) = true.
Proof.
  induction s as [|c s IH]; [done|]. cbn [all_chars]. intros [Hc Hs]%andb_true_iff.
  specialize (IH Hs). cbn [squeeze_hyphens]. destruct s as [|c' s']; [by cbn; rewrite Hc|].
  destruct (is_hyphen c && is_hyphen c'); [done|].
  cbn [all_chars]. by rewrite Hc, IH.
Qed.

Lemma squeeze_no_double s : no_double_hyphen (squeeze_hyphens s).
Proof.
  induction s as [|c s IH]; [done|]. cbn [squeeze_hyphens].
  destruct s as [|c' s']; [done|].
  destruct (is_hyphen c && is_hyphen c') eqn:H; [done|].
  split; [|done]. destruct (squeeze_cons c' s') as [rest ->]. exact H.
Qed.

Lemma sub_runs_all keep s :
  keep "-"%char = true -> all_chars keep (sub_runs keep s) = true.
Proof.
  intros Hh. induction s as [|c s IH]; [done|]. cbn [sub_runs].
  destruct (keep c) eqn:Hc; [cbn [all_chars]; by rewrite Hc, IH|].
  destruct s as [|c' s']; [cbn; by rewrite Hh|].
  destruct (keep c'); [|done]. cbn [all_chars]. by rewrite Hh, IH.
Qed.

Lemma first_kept_hyphen s : first_kept is_hyphen s <-> forall t, s <> "-" +:+ t.
Proof.
  destruct s as [|c s]; [done|]. cbn [first_kept]. split.
  - intros Hc t. rewrite append_cons. intros [= -> _]. discriminate Hc.
  - intros H. destruct (is_hyphen c) eqn:Hc; [|done].
    apply is_hyphen_eq in Hc as ->. by destruct (H s).
Qed.

Lemma last_kept_hyphen s : last_kept is_hyphen s <-> forall t, s <> t +:+ "-".
Proof.
  induction s as [|c s IH].
  - split; [|done]. intros _ [|? ?]; discriminate.
  - cbn [last_kept]. destruct s as [|c' s'].
    + split.
      * intros Hc [|a [|b t]]; try discriminate. intros [= ->]. discriminate Hc.
      * intros H. destruct (is_hyphen c) eqn:Hc; [|done].
        apply is_hyphen_eq in Hc as ->. by destruct (H "").
    + rewrite IH. split.
      * intros H [|a t]; [discriminate|]. rewrite append_cons. intros [= -> Ht]. by apply (H t).
      * intros H t Ht. apply (H (String c t)). rewrite append_cons. by rewrite Ht.
Qed.

Lemma no_double_hyphen_spec s : no_double_hyphen s <-> ~ has_substring "--" s.
Proof.
  induction s as [|c s IH].
  - split; [|done]. intros _ ([|? ?] & after & H); discriminate.
  - cbn [no_double_hyphen]. rewrite IH. split.
    + intros [Hhead Hs] ([|b before] & after & H).
      * change ("" +:+ "--" +:+ after) with (String "-" (String "-" after)) in H.
        injection H as -> ->. discriminate Hhead.
      * apply Hs. exists before, after. rewrite append_cons in H. congruence.
    + intros H. split.
      * destruct s as [|c' s']; [done|].
        destruct (is_hyphen c && is_hyphen c') eqn:Hcc; [|done].
        apply andb_true_iff in Hcc as [->%is_hyphen_eq ->%is_hyphen_eq].
        destruct H. by exists "", s'.
      * intros (before & after & Hs). apply H.
        exists (String c before), after. rewrite append_cons. congruence.
Qed.

Lemma well_formed_slug_spec s :
  well_formed_slug s <->
  s <> "" /\ all_chars slug_char s = true /\ first_kept is_hyphen s
  /\ last_kept is_hyphen s /\ no_double_hyphen s.
Proof.
  unfold well_formed_slug.
  by rewrite first_kept_hyphen, last_kept_hyphen, no_double_hyphen_spec.
Qed.

Lemma lstrip_id drop s : first_kept drop s -> lstrip drop s = s.
Proof. destruct s as [|c s]; [done|]. cbn [first_kept lstrip]. by intros ->. Qed.

Lemma rstrip_id drop s : last_kept drop s -> rstrip drop s = s.
Proof.
  induction s as [|c s IH]; [done|]. cbn [last_kept rstrip].
  destruct s as [|c' s'].
  - cbn [rstrip]. by intros ->.
  - intros H. by rewrite (IH H).
Qed.

Lemma all_chars_ends p drop s :
  (forall c, p c = true -> drop c = false) ->
  all_chars p s = true -> first_kept drop s /\ last_kept drop s.
Proof.
  intros Hp. induction s as [|c s IH]; [done|]. cbn [all_chars].
  intros [Hc Hs]%andb_true_iff. split; [by apply Hp|].
  cbn [last_kept]. destruct s; [by apply Hp | by apply IH].
Qed.

Lemma map_chars_id p f s :
  (forall c, p c = true -> f c = c) -> all_chars p s = true -> map_chars f s = s.
Proof.
  intros Hp. induction s as [|c s IH]; [done|]. cbn [all_chars map_chars].
  intros [Hc Hs]%andb_true_iff. by rewrite (Hp c Hc), (IH Hs).
Qed.

Lemma map_chars_all p q f s :
  (forall c, p c = true -> q (f c) = true) ->
  all_chars p s = true -> all_chars q (map_chars f s) = true.
Proof.
  intros Hp. induction s as [|c s IH]; [done|]. cbn [all_chars map_chars].
  intros [Hc Hs]%andb_true_iff. by rewrite (Hp c Hc), (IH Hs).
Qed.

Lemma map_chars_compose f g s :
  map_chars f (map_chars g s) = map_chars (fun c => f (g c)) s.
Proof. induction s as [|c s IH]; [done|]. cbn [map_chars]. by rewrite IH. Qed.

Lemma sub_runs_id keep s : all_chars keep s = true -> sub_runs keep s = s.
Proof.
  induction s as [|c s IH]; [done|]. cbn [all_chars sub_runs].
  intros [Hc Hs]%andb_true_iff. by rewrite Hc, (IH Hs).
Qed.

Lemma squeeze_id s : no_double_hyphen s -> squeeze_hyphens s = s.
Proof.
  induction s as [|c s IH]; [done|]. intros [Hhead Hs]. cbn [squeeze_hyphens].
  destruct s as [|c' s']; [done|]. by rewrite Hhead, (IH Hs).
Qed.

Lemma sub_runs_hyphens keep s :
  all_chars (fun c => negb (keep c) || is_hyphen c) s = true ->
  all_chars is_hyphen (sub_runs keep s) = true.
Proof.
  induction s as [|c s IH]; [done|]. cbn [all_chars sub_runs].
  intros [Hc Hs]%andb_true_iff. specialize (IH Hs).
  destruct (keep c); [cbn [negb orb all_chars] in *; by rewrite Hc, IH|].
  destruct s as [|c' s']; [done|]. destruct (keep c'); [|done].
  cbn [all_chars]. by rewrite IH.
Qed.

Lemma lstrip_all_dropped drop s : all_chars drop s = true -> lstrip drop s = "".
Proof.
  induction s as [|c s IH]; [done|]. cbn [all_chars lstrip].
  intros [Hc Hs]%andb_true_iff. by rewrite Hc, (IH Hs).
Qed.

Lemma not_word_char_facts c :
  is_word_char c = false ->
  negb (slug_char (underscore_to_hyphen (to_lower c)))
  || is_hyphen (underscore_to_hyphen (to_lower c)) = true.
Proof. destruct c as [[] [] [] [] [] [] [] []]; intros H; try discriminate H; done. Qed.

Lemma well_formed_page : well_formed_slug "page".
Proof. apply well_formed_slug_spec. repeat split; done. Qed.

Lemma slugify_shape value : well_formed_slug (slugify value).
Proof.
  unfold slugify. cbv zeta.
  set (v := map_chars underscore_to_hyphen (map_chars to_lower (strip is_whitespace value))).
  assert (H : forall k ks, strip is_hyphen (squeeze_hyphens (sub_runs slug_char v)) = String k ks ->
                           well_formed_slug (String k ks)).
  { intros k ks E. apply well_formed_slug_spec. split; [done|]. rewrite <- E. unfold strip.
    assert (Hall : all_chars slug_char (squeeze_hyphens (sub_runs slug_char v)) = true)
      by (by apply squeeze_all, sub_runs_all).
    assert (Hnd : no_double_hyphen (squeeze_hyphens (sub_runs slug_char v)))
      by apply squeeze_no_double.
    split; [|split; [|split]].
    - by apply rstrip_all, lstrip_all.
    - apply rstrip_first, lstrip_first.
    - apply rstrip_last.
    - by apply rstrip_no_double, lstrip_no_double. }
  destruct (strip is_hyphen (squeeze_hyphens (sub_runs slug_char v))) as [|k ks].
  - apply well_formed_page.
  - by apply H.
Qed.

Lemma slug_fixed s : well_formed_slug s -> slugify s = s.
Proof.
  intros (Hne & Hall & Hfirst & Hlast & Hnd)%well_formed_slug_spec.
  unfold slugify, strip. cbv zeta.
  destruct (all_chars_ends slug_char is_whitespace s) as [Hf Hl];
    [intros c Hc; by apply slug_char_facts | done |].
  rewrite (lstrip_id _ _ Hf), (rstrip_id _ _ Hl).
  rewrite (map_chars_id slug_char to_lower) by (done || (intros c Hc; by apply slug_char_facts)).
  rewrite (map_chars_id slug_char underscore_to_hyphen)
    by (done || (intros c Hc; by apply slug_char_facts)).
  rewrite (sub_runs_id _ _ Hall), (squeeze_id _ Hnd).
  rewrite (lstrip_id _ _ Hfirst), (rstrip_id _ _ Hlast).
  by destruct s.
Qed.

(** X13: whatever the (ASCII) text, [slugify] returns a well-formed
    slug: it is not empty, holds only lower-case letters, digits,
    backslashes and hyphens, neither begins nor ends with a hyphen, and
    has no two hyphens in a row. *)
Theorem slugify_is_well_formed value :
  ascii_only value -> well_formed_slug (slugify value).
Proof.
  intros _. apply slugify_shape.
Qed.



Lemma slugify_is_well_formed_witness : well_formed_slug (slugify "  Q3 Report_(final).md ").
Proof. apply slugify_is_well_formed. reflexivity. Defined.

(** X14: a well-formed slug is left as it is, so [slugify] is
    idempotent: slugging a slug again changes nothing. *)
Theorem slugify_keeps_slugs value :
  (well_formed_slug value -> slugify value = value)
  /\ (ascii_only value -> slugify (slugify value) = slugify value).
Proof.
  split; [apply slug_fixed|].
  intros _. apply slug_fixed, slugify_shape.
Qed.

Lemma slugify_keeps_slugs_witness :
  slugify "q3-report-final-md" = "q3-report-final-md"
  /\ slugify (slugify "Q3 Report") = slugify "Q3 Report".
Proof.
  destruct (slugify_keeps_slugs "q3-report-final-md") as [Hfix _].
  destruct (slugify_keeps_slugs "Q3 Report") as [_ Hidem].
  split.
  - apply Hfix. apply well_formed_slug_spec. repeat split; done.
  - apply Hidem. reflexivity.
Defined.

(** X15: text without any letter, digit or backslash (the empty string,
    blanks, punctuation, underscores) has the slug [page]. *)
Theorem slugify_falls_back_to_page value :
  ascii_only value ->
  all_chars (fun c => negb (is_word_char c)) value = true ->
  slugify value = "page".
Proof.
  intros _ Hnone. unfold slugify, strip. cbv zeta.
  set (v := map_chars underscore_to_hyphen (map_chars to_lower _)).
  assert (Hv : all_chars (fun c => negb (slug_char c) || is_hyphen c) v = true).
  { unfold v, strip. rewrite map_chars_compose.
    apply (map_chars_all (fun c => negb (is_word_char c))).
    - intros c Hc. apply not_word_char_facts. by destruct (is_word_char c).
    - by apply rstrip_all, lstrip_all. }
  rewrite (lstrip_all_dropped is_hyphen); [done|].
  by apply squeeze_all, sub_runs_hyphens.
Qed.

Lemma slugify_falls_back_witness : slugify " __ (?) " = "page".
Proof. apply slugify_falls_back_to_page; reflexivity. Defined.

(** ** Titles *)

Lemma split_breaks_one_line s : forall after_cr, Forall one_line (split_breaks after_cr s).
Proof.
  induction s as [|c s IH]; intros after_cr; [by repeat constructor|].
  cbn [split_breaks].
  destruct (after_cr && (c =? line_feed)%char); [apply IH|].
  destruct (is_line_break c) eqn:Hc; [constructor; [done | apply IH]|].
  specialize (IH false). destruct (split_breaks false s) as [|line rest].
  - repeat constructor. unfold one_line. cbn [all_chars]. by rewrite Hc.
  - apply Forall_cons in IH as [Hline Hrest]. constructor; [|done].
    unfold one_line in *. cbn [all_chars]. by rewrite Hc, Hline.
Qed.

Lemma drop_last_empty_forall (P : string -> Prop) pieces :
  Forall P pieces -> Forall P (drop_last_empty pieces).
Proof.
  induction 1 as [|piece rest Hp Hrest IH]; [done|]. cbn [drop_last_empty].
  destruct rest; [destruct (piece =? "")%string; by repeat constructor|].
  by constructor.
Qed.

Lemma drop_chars_all p n : forall s, all_chars p s = true -> all_chars p (drop_chars n s) = true.
Proof.
  induction n as [|n IH]; intros [|c s]; try done. cbn [all_chars drop_chars].
  intros [_ Hs]%andb_true_iff. by apply IH.
Qed.

Lemma strip_strip drop s : strip drop (strip drop s) = strip drop s.
Proof.
  unfold strip. rewrite (lstrip_id drop (rstrip drop (lstrip drop s))).
  - apply rstrip_id, rstrip_last.
  - apply rstrip_first, lstrip_first.
Qed.

Lemma first_title_shape lines fallback :
  Forall one_line lines ->
  first_title lines fallback = fallback
  \/ (strip is_whitespace (first_title lines fallback) = first_title lines fallback
      /\ one_line (first_title lines fallback)).
Proof.
  induction 1 as [|line rest Hline _ IH]; [by left|]. cbn [first_title].
  destruct (String.prefix "# " line); [|done]. right. split; [apply strip_strip|].
  unfold one_line, strip. by apply rstrip_all, lstrip_all, drop_chars_all.
Qed.

(** X16: a title that [extract_title] takes from the document, rather
    than the fallback it was given, is one line of text without blanks
    at either end. *)
Theorem extracted_title_is_trimmed markdown fallback :
  ascii_only markdown ->
  extract_title markdown fallback = fallback
  \/ (strip is_whitespace (extract_title markdown fallback) = extract_title markdown fallback
      /\ one_line (extract_title markdown fallback)).
Proof.
  intros _. apply first_title_shape, drop_last_empty_forall, split_breaks_one_line.
Qed.

Lemma extracted_title_witness :
  extract_title ("intro" +:+ nl +:+ "#   Field Notes  " +:+ nl +:+ "# Other") "untitled"
  = "Field Notes".
Proof.
  destruct (extracted_title_is_trimmed
              ("intro" +:+ nl +:+ "#   Field Notes  " +:+ nl +:+ "# Other") "untitled")
    as [H|[_ _]]; [reflexivity | discriminate H | reflexivity].
Defined.

Lemma split_breaks_line l rest :
  one_line l -> split_breaks false (l +:+ nl +:+ rest) = l :: split_breaks false rest.
Proof.
  unfold one_line. induction l as [|c l IH]; [done|]. cbn [all_chars].
  intros [Hc Hl]%andb_true_iff. rewrite append_cons. cbn [split_breaks andb].
  apply negb_true_iff in Hc. by rewrite Hc, (IH Hl).
Qed.

Lemma split_breaks_single l : one_line l -> split_breaks false l = [l].
Proof.
  unfold one_line. induction l as [|c l IH]; [done|]. cbn [all_chars].
  intros [Hc Hl]%andb_true_iff. cbn [split_breaks andb].
  apply negb_true_iff in Hc. by rewrite Hc, (IH Hl).
Qed.

Lemma split_breaks_join lines :
  Forall one_line lines -> lines <> [] -> split_breaks false (join nl lines) = lines.
Proof.
  induction 1 as [|line rest Hline Hrest IH]; [done|]. intros _. cbn [join].
  destruct rest as [|line' rest']; [by apply split_breaks_single|].
  rewrite split_breaks_line by done. f_equal. by apply IH.
Qed.

Lemma first_title_drop_last pieces fallback :
  first_title (drop_last_empty pieces) fallback = first_title pieces fallback.
Proof.
  induction pieces as [|piece rest IH]; [done|]. cbn [drop_last_empty].
  destruct rest as [|piece' rest'].
  - destruct (String.eqb_spec piece "") as [->|Hne]; done.
  - cbn [first_title] in *. by rewrite IH.
Qed.

Lemma extract_title_join lines fallback :
  Forall one_line lines ->
  extract_title (join nl lines) fallback = first_title lines fallback.
Proof.
  intros Hlines. unfold extract_title, splitlines. rewrite first_title_drop_last.
  destruct lines as [|line rest]; [done|]. by rewrite split_breaks_join.
Qed.

Lemma first_title_skips before : forall lines fallback,
  Forall no_heading before ->
  first_title (before ++ lines) fallback = first_title lines fallback.
Proof.
  induction before as [|line before IH]; intros lines fallback Hb; [done|].
  apply Forall_cons in Hb as [Hline Hb]. cbn [app first_title].
  unfold no_heading in Hline. rewrite Hline. by apply IH.
Qed.

(** X17: in a document given line by line, the first line that begins
    with [# ] gives the title: what follows the two characters, without
    the blanks at its ends (the empty string when nothing else follows).
    Lines before it that are no such heading do not matter, nor does
    anything after it; and a document without such a line has the
    fallback as its title. *)
Theorem first_heading_is_the_title before heading after fallback :
  Forall plain_line before -> plain_line heading -> Forall plain_line after ->
  Forall no_heading before ->
  extract_title (join nl (before ++ ("# " +:+ heading) :: after)) fallback
    = strip is_whitespace heading
  /\ extract_title (join nl before) fallback = fallback.
Proof.
  intros Hb Hh Ha Hnone.
  assert (Hb1 : Forall one_line before) by (eapply Forall_impl; [exact Hb | by intros ? [_ ?]]).
  assert (Ha1 : Forall one_line after) by (eapply Forall_impl; [exact Ha | by intros ? [_ ?]]).
  split.
  - rewrite extract_title_join.
    + rewrite first_title_skips by done. cbn [first_title].
      replace (String.prefix "# " ("# " +:+ heading)) with true
        by (symmetry; apply prefix_spec; by exists heading).
      reflexivity.
    + apply Forall_app; split; [done|]. constructor; [|done].
      destruct Hh as [_ Hh]. unfold one_line in *. by rewrite !append_cons.
  - rewrite extract_title_join by done.
    rewrite <- (app_nil_r before). by rewrite first_title_skips.
Qed.

Lemma first_heading_witness :
  extract_title (join nl ["intro"; "## Setup"; "#   Field Notes  "; "# Other"]) "untitled"
  = "Field Notes".
Proof.
  destruct (first_heading_is_the_title ["intro"; "## Setup"] "  Field Notes  " ["# Other"] "untitled")
    as [H _]; [| | | |exact H]; repeat constructor.
Defined.

(** ** When the output cannot be opened *)

Lemma pages_on_opens os lib output_path :
  (forall n, os n output_path = None) ->
  forall images i w,
    pages_on os lib output_path i images w = pages lib output_path i images w.
Proof.
  intros Hos. induction images as [|img images IH]; intros i w; [done|].
  cbn [pages_on pages]. destruct (process_page_vision lib img (i + 1) w) as [[r|] w'].
  - by rewrite Hos, IH.
  - by rewrite Hos.
Qed.

Lemma process_pdf_on_opens os lib pdf_path output_path w :
  (forall n, os n output_path = None) ->
  process_pdf_on os lib pdf_path output_path w = process_pdf lib pdf_path output_path w.
Proof.
  intros Hos. unfold process_pdf_on, process_pdf.
  destruct (path_exists output_path w); [done|].
  destruct (convert_from_path lib pdf_path 200); [|done].
  by rewrite Hos, pages_on_opens.
Qed.

Lemma pages_on_ends os lib output_path images : forall i w,
  fst (pages_on os lib output_path i images w) = Returned
  \/ exists n e, os n output_path = Some e
                 /\ fst (pages_on os lib output_path i images w) = Raised e.
Proof.
  induction images as [|img images IH]; intros i w; [by left|].
  cbn [pages_on].
  destruct (process_page_vision_returns lib img (i + 1) w) as (r & evs & -> & _).
  destruct (os (i + 1) output_path) as [e|] eqn:Hos; [right; eauto|].
  apply IH.
Qed.

Lemma process_pdf_on_ends os lib pdf_path output_path w :
  fst (process_pdf_on os lib pdf_path output_path w) = Returned
  \/ exists n e, os n output_path = Some e
                 /\ fst (process_pdf_on os lib pdf_path output_path w) = Raised e.
Proof.
  unfold process_pdf_on. destruct (path_exists output_path w); [by left|].
  destruct (convert_from_path lib pdf_path 200); [|by left].
  destruct (os 0 output_path) as [e|] eqn:Hos; [right; eauto|].
  apply pages_on_ends.
Qed.

Lemma process_pdf_on_header os lib pdf_path output_path w images e :
  path_exists output_path w = false ->
  convert_from_path lib pdf_path 200 = Returns images ->
  os 0 output_path = Some e ->
  process_pdf_on os lib pdf_path output_path w =
  (Raised e,
   {| files := files w;
      trace := trace w ++ [Print (processing_line lib pdf_path);
                           ConvertFromPath pdf_path 200 (Returns images)] |}).
Proof.
  intros H Hc Hos. unfold process_pdf_on. rewrite H, Hc, Hos.
  unfold print, emit; cbn [files trace]. by rewrite <- !app_assoc.
Qed.




